(** * CuponsdeDesconto: the coupon bot of [main.py]

    A shallow embedding of [main.py]: the URL shortener fallback, the
    artifact slot [cupom.png], the deduplication of candidates against the
    history of posted titles, one publish cycle ([BotManager.post_cupons])
    and the reconnect loop ([BotManager.run]).

    Python exceptions are values of [Res]; code that mutates the bot or the
    disk runs in the state-and-exception monad [M]; the outside world (HTTP
    replies, the Telegram channel, the random source, signals) is an
    explicit oracle. *)

From stdpp Require Import base gmap sets list strings.
From Stdlib Require Import ZArith Lia.

Open Scope string_scope.

(** ** Module constants (main.py, lines 13-16) *)

Definition RECONNECT_DELAY : Z := 60.
Definition POST_INTERVAL : Z := 6 * 60 * 60.
Definition MAX_RETRIES : nat := 5.

(** The optional environment variable read at line 21. *)
Record config := { SHRINKME_API : option string }.

(** Python truthiness of a value that is [None] or a string. *)
Definition truthy (o : option string) : bool :=
  match o with
  | Some s => negb (String.eqb s "")
  | None => false
  end.

(** ** Exceptions *)

Inductive exn :=
| RequestException   (* requests: connection error or timeout *)
| HTTPError          (* raise_for_status on a 4xx/5xx reply *)
| JSONDecodeError    (* response.json() on a body that is not JSON *)
| AttributeError     (* .get on a JSON value that is not an object *)
| TelegramError      (* any transport fault of the channel *)
| OSError.           (* console or disk fault *)

Inductive Res (A : Type) :=
| Ret (a : A)
| Raise (e : exn).
Arguments Ret {A} a.
Arguments Raise {A} e.

#[global] Instance Res_ret : MRet Res := @Ret.
#[global] Instance Res_bind : MBind Res := λ A B f m,
  match m with
  | Ret a => f a
  | Raise e => Raise e
  end.

Definition succeeded {A} (r : Res A) : bool :=
  match r with
  | Ret _ => true
  | Raise _ => false
  end.

(** [try: body except Exception: handler] for code without side effects. *)
Definition try_res {A} (body : Res A) (handler : exn → Res A) : Res A :=
  match body with
  | Ret a => Ret a
  | Raise e => handler e
  end.

(** ** HTTP replies and JSON bodies *)

(** A JSON value as the code reads it: a string, or something else whose
    [str()] rendering is [repr]. *)
Inductive jval :=
| JStr (s : string)
| JOther (repr : string).

#[global] Instance jval_eq_dec : EqDecision jval.
Proof. solve_decision. Defined.

(** The text an f-string puts in place of [{v}]. *)
Definition py_str (v : jval) : string :=
  match v with
  | JStr s => s
  | JOther r => r
  end.

(** A decoded body: an object with fields, or any other JSON value. *)
Inductive jdoc :=
| JObject (fields : gmap string jval)
| JNonObject.

Record response := {
  status_code : nat;
  json_body : option jdoc;   (* [None]: the body is not JSON *)
  content : string;
}.

(** The statuses on which [raise_for_status] raises. *)
Definition error_status (code : nat) : bool :=
  (400 <=? code)%nat && (code <? 600)%nat.
Arguments error_status : simpl never.

Definition raise_for_status (r : response) : Res unit :=
  if error_status (status_code r) then Raise HTTPError else Ret tt.

Definition json (r : response) : Res jdoc :=
  match json_body r with
  | Some d => Ret d
  | None => Raise JSONDecodeError
  end.

(** [data.get(key)]: [None] when the key is absent. *)
Definition dict_get (data : jdoc) (key : string) : Res (option jval) :=
  match data with
  | JObject fields => Ret (fields !! key)
  | JNonObject => Raise AttributeError
  end.

(** ** shorten_url (main.py, lines 226-244)

    [api_get url] is the reply of [requests.get] on the ShrinkMe endpoint
    for the parameter [url]. *)
Definition shorten_url (cfg : config) (api_get : string → Res response)
    (url : string) : Res jval :=
  if negb (truthy (SHRINKME_API cfg)) then Ret (JStr url)
  else
    try_res
      (response ← api_get url;
       _ ← raise_for_status response;
       data ← json response;
       status ← dict_get data "status";
       if bool_decide (status = Some (JStr "success")) then
         short ← dict_get data "shortenedUrl";
         Ret (default (JStr url) short)
       else
         _ ← dict_get data "message";
         Ret (JStr url))
      (λ _, Ret (JStr url)).

(** ** Candidates *)

Record coupon := {
  titulo : string;
  descricao : string;
  link : string;
  imagem : option string;
  fonte : string;
}.

(** The line feed of the [\n] escapes. *)
Definition nl : string := String (Ascii.ascii_of_nat 10) "".

(** The caption template of line 125, read as text: the three fields, each
    followed by a blank line, and the closing brace that ends the template. *)
Definition make_caption (titulo descricao link : string) : string :=
  "🎁 " ++ titulo ++ nl ++ nl ++
  "📝 " ++ descricao ++ nl ++ nl ++
  "🔗 " ++ link ++ nl ++ nl ++ "}".

(** ** The bot, the disk and what it has done *)

Inductive font := Arial40 | DefaultFont.

Inductive artifact :=
| Downloaded (content : string)
| Rendered (text : string) (f : font).

Inductive effect :=
| Connected                                     (* test_connection passed *)
| ConnectFailed
| SendPhoto (photo : artifact) (caption : string)
| SendMessage (text : string)
| SendFailed (caption : string)                 (* the send raised *)
| Sleep (seconds : Z)
| Signal.                                       (* handle_exit ran *)

Record state := {
  should_restart : bool;
  posted_coupons : gset string;
  files : gmap string artifact;   (* path to content *)
  trace : list effect;            (* oldest first *)
}.

Definition set_should_restart (b : bool) (st : state) : state :=
  {| should_restart := b; posted_coupons := posted_coupons st;
     files := files st; trace := trace st |}.

Definition set_posted (p : gset string) (st : state) : state :=
  {| should_restart := should_restart st; posted_coupons := p;
     files := files st; trace := trace st |}.

Definition set_files (f : gmap string artifact) (st : state) : state :=
  {| should_restart := should_restart st; posted_coupons := posted_coupons st;
     files := f; trace := trace st |}.

Definition emit (e : effect) (st : state) : state :=
  {| should_restart := should_restart st; posted_coupons := posted_coupons st;
     files := files st; trace := trace st ++ [e] |}.

(** ** The state-and-exception monad *)

Definition M (A : Type) : Type := state → Res A * state.

#[global] Instance M_ret : MRet M := λ A a st, (Ret a, st).
#[global] Instance M_bind : MBind M := λ A B f m st,
  match m st with
  | (Ret a, st') => f a st'
  | (Raise e, st') => (Raise e, st')
  end.

Definition lift {A} (r : Res A) : M A := λ st, (r, st).
Definition get_state : M state := λ st, (Ret st, st).
Definition modify (f : state → state) : M unit := λ st, (Ret tt, f st).

(** [try: body except Exception as e: handler e]; what the body did to the
    state before it raised stays done. *)
Definition try_except {A} (body : M A) (handler : exn → M A) : M A := λ st,
  match body st with
  | (Ret a, st') => (Ret a, st')
  | (Raise e, st') => handler e st'
  end.

Definition raise {A} (e : exn) : M A := λ st, (Raise e, st).

(** ** The outside world during one cycle *)

(** One result of the search API, as [buscar_cupons_google] reads it. *)
Record search_item := {
  item_title : string;
  item_snippet : string;
  item_link : string;
  item_cse_image : option string;
}.

Record world := {
  (* the console write of line 106 *)
  w_console : Res unit;
  (* the search for one site: the items, or any fault raised inside the
     try block of buscar_cupons_google (request, status, malformed item) *)
  w_search : string → Res (list search_item);
  (* the random source of random.shuffle: the draw for position i *)
  w_random : nat → nat;
  (* requests.get on the ShrinkMe endpoint, by the url to shorten *)
  w_shrinkme : string → Res response;
  (* requests.get on an image url *)
  w_image : string → Res response;
  (* ImageFont.truetype finds arial.ttf *)
  w_arial : bool;
  (* the drawing calls and img.save of create_image *)
  w_render : Res unit;
  (* send_photo or send_message of the cycle *)
  w_send : Res unit;
}.

(** ** get_cupons (main.py, lines 59-101) *)

Definition sites : list string :=
  ["cuponomia.com"; "meliuz.com.br"; "pelando.com.br"].

Definition to_coupon (site_query : string) (item : search_item) : coupon :=
  {| titulo := item_title item; descricao := item_snippet item;
     link := item_link item; imagem := item_cse_image item;
     fonte := site_query |}.

Definition buscar_cupons_google (w : world) (site_query : string)
    : Res (list coupon) :=
  try_res
    (results ← w_search w site_query;
     Ret (map (to_coupon site_query) results))
    (λ _, Ret []).

(** [x[i], x[j] = x[j], x[i]] *)
Definition swap {A} (i j : nat) (x : list A) : list A :=
  match x !! i, x !! j with
  | Some a, Some b => <[i:=b]> (<[j:=a]> x)
  | _, _ => x
  end.

(** random.shuffle: for i from len-1 down to 1, swap x[i] with x[j] for a
    random j in 0..i. *)
Fixpoint shuffle_from {A} (rand : nat → nat) (i : nat) (x : list A) : list A :=
  match i with
  | O => x
  | S i' => shuffle_from rand i' (swap i (rand i `mod` S i) x)
  end.

Definition shuffle {A} (rand : nat → nat) (x : list A) : list A :=
  shuffle_from rand (length x - 1) x.

Fixpoint extend_all (w : world) (ss : list string) (all_coupons : list coupon)
    : Res (list coupon) :=
  match ss with
  | [] => Ret all_coupons
  | site :: ss' =>
      coupons ← buscar_cupons_google w site;
      extend_all w ss' (all_coupons ++ coupons)
  end.

Definition get_cupons (w : world) : Res (list coupon) :=
  try_res
    (all_coupons ← extend_all w sites [];
     Ret (shuffle (w_random w) all_coupons))
    (λ _, Ret []).

(** ** The artifact slot (main.py, lines 197-224) *)

Definition write_file (path : string) (a : artifact) : M unit :=
  modify (λ st, set_files (<[path:=a]> (files st)) st).

(** [os.path.exists] together with the content [open] would read. *)
Definition read_file (path : string) : M (option artifact) :=
  st ← get_state; mret (files st !! path).

Definition create_image (w : world) (titulo : string) : M unit :=
  try_except
    (let f := if w_arial w then Arial40 else DefaultFont in
     _ ← lift (w_render w);
     write_file "cupom.png" (Rendered titulo f))
    (λ _, mret tt).

Definition download_image (w : world) (url output_path : string) : M bool :=
  try_except
    (response ← lift (w_image w url);
     _ ← lift (raise_for_status response);
     _ ← write_file output_path (Downloaded (content response));
     mret true)
    (λ _, mret false).

(** ** The channel *)

Definition send_photo (w : world) (photo : artifact) (caption : string)
    : M unit :=
  match w_send w with
  | Ret _ => modify (emit (SendPhoto photo caption))
  | Raise e => _ ← modify (emit (SendFailed caption)); raise e
  end.

Definition send_message (w : world) (text : string) : M unit :=
  match w_send w with
  | Ret _ => modify (emit (SendMessage text))
  | Raise e => _ ← modify (emit (SendFailed text)); raise e
  end.

(** ** One cycle: post_cupons (main.py, lines 103-161) *)

(** Lines 112-117: keep the candidates whose title is not in the history;
    when none is left, clear the history and take the whole batch. *)
Definition select_new_coupons (cupons : list coupon) : M (list coupon) :=
  st ← get_state;
  let new_coupons := filter (λ c, titulo c ∉ posted_coupons st) cupons in
  match new_coupons with
  | [] => _ ← modify (set_posted ∅); mret cupons
  | _ :: _ => mret new_coupons
  end.

(** Lines 127-132: download the candidate's image when it has one, render
    the title otherwise or when the download failed. *)
Definition produce_artifact (w : world) (cupom : coupon) : M unit :=
  imagem_gerada ←
    (if truthy (imagem cupom)
     then download_image w (default "" (imagem cupom)) "cupom.png"
     else mret false);
  if imagem_gerada : bool then mret tt else create_image w (titulo cupom).

(** Lines 134-149: photo when cupom.png exists, text otherwise. *)
Definition send_coupon (w : world) (caption : string) : M unit :=
  img ← read_file "cupom.png";
  match img with
  | Some photo => send_photo w photo caption
  | None => send_message w caption
  end.

(** Lines 122-152: the body of the inner try, for the chosen candidate. *)
Definition post_one (cfg : config) (w : world) (cupom : coupon) : M unit :=
  let titulo := titulo cupom in
  let descricao := descricao cupom in
  link ← lift (shorten_url cfg (w_shrinkme w) (link cupom));
  let caption := make_caption titulo descricao (py_str link) in
  _ ← produce_artifact w cupom;
  _ ← send_coupon w caption;
  modify (λ st, set_posted ({[titulo]} ∪ posted_coupons st) st).

Definition post_cupons (cfg : config) (w : world) : M unit :=
  try_except
    (_ ← lift (w_console w);
     cupons ← lift (get_cupons w);
     match cupons with
     | [] => mret tt
     | _ :: _ =>
         new_coupons ← select_new_coupons cupons;
         match new_coupons with
         | cupom :: _ => try_except (post_one cfg w cupom) (λ _, mret tt)
         | [] => mret tt
         end
     end)
    (λ e, raise e).

(** ** The reconnect loop: run (main.py, lines 163-195) *)

(** What the outside world does during one pass of a loop. *)
Record env := {
  e_connect : Res unit;     (* get_chat and the announcement of test_connection *)
  e_world : world;          (* the world of the cycle *)
  e_signal_busy : bool;     (* SIGINT/SIGTERM while connecting or posting *)
  e_signal_wait : bool;     (* SIGINT/SIGTERM during the asyncio.sleep *)
}.

(** Line 36. *)
Definition handle_exit (st : state) : state :=
  set_should_restart false (emit Signal st).

Definition deliver (signal : bool) (st : state) : state :=
  if signal then handle_exit st else st.

(** [await asyncio.sleep(seconds)]: the handler may run meanwhile; the sleep
    itself takes no argument but the duration. *)
Definition sleep (seconds : Z) (signal : bool) (st : state) : state :=
  deliver signal (emit (Sleep seconds) st).

Definition test_connection (e : env) : M unit :=
  match e_connect e with
  | Ret _ => modify (emit Connected)
  | Raise x => _ ← modify (emit ConnectFailed); raise x
  end.

Definition initialize_bot (e : env) : M bool :=
  try_except (_ ← test_connection e; mret true) (λ _, mret false).

(** Where control stands between two passes. *)
Inductive ctrl :=
| AtOuterLoop    (* line 166 *)
| AtInnerLoop    (* line 174 *)
| Exited.        (* past the outer loop *)

Record run_state := {
  bot : state;
  retry_count : nat;
  at_line : ctrl;
}.

(** One pass: from a loop head to the next loop head. *)
Definition step (cfg : config) (e : env) (rs : run_state) : run_state :=
  match at_line rs with
  | Exited => rs
  | AtOuterLoop =>
      if should_restart (bot rs) then
        let '(r, st1) := initialize_bot e (bot rs) in
        let st2 := deliver (e_signal_busy e) st1 in
        match r with
        | Ret true =>
            {| bot := st2; retry_count := 0; at_line := AtInnerLoop |}
        | _ =>
            let retry_count := S (retry_count rs) in
            if (MAX_RETRIES <=? retry_count)%nat then
              {| bot := set_should_restart false st2;
                 retry_count := retry_count; at_line := Exited |}
            else
              {| bot := sleep RECONNECT_DELAY (e_signal_wait e) st2;
                 retry_count := retry_count; at_line := AtOuterLoop |}
        end
      else
        {| bot := bot rs; retry_count := retry_count rs; at_line := Exited |}
  | AtInnerLoop =>
      if should_restart (bot rs) then
        let '(r, st1) := post_cupons cfg (e_world e) (bot rs) in
        let st2 := deliver (e_signal_busy e) st1 in
        match r with
        | Ret _ =>
            {| bot := sleep POST_INTERVAL (e_signal_wait e) st2;
               retry_count := retry_count rs; at_line := AtInnerLoop |}
        | Raise _ =>
            {| bot := sleep RECONNECT_DELAY (e_signal_wait e) st2;
               retry_count := retry_count rs; at_line := AtOuterLoop |}
        end
      else
        {| bot := bot rs; retry_count := retry_count rs;
           at_line := AtOuterLoop |}
  end.

Definition run_script (cfg : config) (script : list env) (rs : run_state)
    : run_state :=
  foldl (λ rs e, step cfg e rs) rs script.

(** BotManager() followed by the first line of run. *)
Definition boot (disk : gmap string artifact) : run_state :=
  {| bot := {| should_restart := true; posted_coupons := ∅;
               files := disk; trace := [] |};
     retry_count := 0; at_line := AtOuterLoop |}.

(** ** Reading a trace *)

Definition is_publish (e : effect) : bool :=
  match e with
  | SendPhoto _ _ | SendMessage _ => true
  | _ => false
  end.

Definition is_connect (e : effect) : bool :=
  match e with
  | Connected | ConnectFailed => true
  | _ => false
  end.

Definition slept (e : effect) : Z :=
  match e with
  | Sleep seconds => seconds
  | _ => 0
  end.

(** Seconds spent in asyncio.sleep. *)
Definition waited (tr : list effect) : Z := foldr (λ e acc, slept e + acc)%Z 0%Z tr.

(** The effects after the first signal. *)
Fixpoint after_signal (tr : list effect) : list effect :=
  match tr with
  | [] => []
  | Signal :: tr' => tr'
  | _ :: tr' => after_signal tr'
  end.

Definition effect_caption (e : effect) : option string :=
  match e with
  | SendPhoto _ caption | SendMessage caption | SendFailed caption =>
      Some caption
  | _ => None
  end.

(** ** Words of the specification, for the statements below *)

(** The shortener fails: missing credential, request error or timeout, error
    status, a body that is not a JSON object, or a status other than
    success. *)
Definition shortener_failed (cfg : config) (reply : Res response) : bool :=
  negb (truthy (SHRINKME_API cfg)) ||
  match reply with
  | Raise _ => true
  | Ret r =>
      error_status (status_code r) ||
      match json_body r with
      | Some (JObject fields) =>
          negb (bool_decide (fields !! "status" = Some (JStr "success")))
      | _ => true
      end
  end.

(** The link text that line 124 binds. *)
Definition short_link (cfg : config) (w : world) (url : string) : string :=
  match shorten_url cfg (w_shrinkme w) url with
  | Ret v => py_str v
  | Raise _ => url
  end.

Definition caption_of (cfg : config) (w : world) (cupom : coupon) : string :=
  make_caption (titulo cupom) (descricao cupom)
    (short_link cfg w (link cupom)).

(** The image a cycle obtains for its candidate, if any: the download, else
    the rendering. *)
Definition download_result (w : world) (url : string) : option artifact :=
  match w_image w url with
  | Ret r =>
      match raise_for_status r with
      | Ret _ => Some (Downloaded (content r))
      | Raise _ => None
      end
  | Raise _ => None
  end.

Definition render_result (w : world) (titulo : string) : option artifact :=
  match w_render w with
  | Ret _ => Some (Rendered titulo (if w_arial w then Arial40 else DefaultFont))
  | Raise _ => None
  end.

Definition fresh_artifact (w : world) (cupom : coupon) : option artifact :=
  match
    (if truthy (imagem cupom)
     then download_result w (default "" (imagem cupom)) else None)
  with
  | Some a => Some a
  | None => render_result w (titulo cupom)
  end.

(** A string occurs inside another. *)
Definition occurs_in (needle hay : string) : Prop :=
  ∃ before after, hay = before ++ needle ++ after.

(** Unfolds the monad of one cycle. *)
Ltac run_m :=
  unfold mbind, M_bind, mret, M_ret, lift, modify, get_state, try_except,
    raise in *; simpl in *.

(** The state once the artifact of the cycle has been produced. *)
Definition produced (w : world) (cupom : coupon) (st : state) : state :=
  match fresh_artifact w cupom with
  | Some a => set_files (<["cupom.png":=a]> (files st)) st
  | None => st
  end.

(** What the channel is asked to carry: the file when there is one. *)
Definition outgoing (st : state) (caption : string) : effect :=
  match files st !! "cupom.png" with
  | Some photo => SendPhoto photo caption
  | None => SendMessage caption
  end.

Definition is_new (st : state) (c : coupon) : Prop :=
  titulo c ∉ posted_coupons st.

(** The state a publish attempt leaves, whether the send raised or not. *)
Definition attempted (cfg : config) (w : world) (cupom : coupon)
    (st1 : state) : state :=
  let st2 := produced w cupom st1 in
  let caption := caption_of cfg w cupom in
  match w_send w with
  | Ret _ =>
      set_posted ({[titulo cupom]} ∪ posted_coupons st2)
        (emit (outgoing st2 caption) st2)
  | Raise _ => emit (SendFailed caption) st2
  end.

(** The publishes a cycle added to the trace. *)
Definition published_in (st st' : state) : list effect :=
  filter (λ e, is_publish e = true) (drop (length (trace st)) (trace st')).

Definition publishes (tr : list effect) : list effect :=
  filter (λ e, is_publish e = true) tr.

(** The sessions opened or attempted so far. *)
Definition connects (tr : list effect) : list effect :=
  filter (λ x, is_connect x = true) tr.

(** A cycle that writes the slot: it has a candidate and obtains an image
    for it. *)
Definition slot_written (w : world) (st : state) : Prop :=
  ∃ cupons cupom rest st1 a,
    get_cupons w = Ret cupons ∧
    select_new_coupons cupons st = (Ret (cupom :: rest), st1) ∧
    fresh_artifact w cupom = Some a.

(** ** The claims that do not hold, read literally *)

(** The second claim read literally: in a cycle whose batch has a candidate
    that is not in the history, exactly one of the new candidates is
    published and has its title recorded, and no other new candidate has its
    title in the history afterwards. *)
Definition one_published_rest_unmarked (cfg : config) (w : world)
    (st : state) : Prop :=
  ∀ cupons, get_cupons w = Ret cupons → Exists (is_new st) cupons →
    let st' := (post_cupons cfg w st).2 in
    ∃ cupom, cupom ∈ filter (is_new st) cupons ∧
      (∃ eff, published_in st st' = [eff]) ∧
      titulo cupom ∈ posted_coupons st' ∧
      ∀ c, c ∈ filter (is_new st) cupons → c ≠ cupom →
           titulo c ∉ posted_coupons st'.

(** The third claim read literally, for a pass [e] of the cycle loop in which
    the cycle fails and the pass [e'] after it: the wait is RECONNECT_DELAY,
    control is back at the head of the cycle loop, the counter is zero and no
    session has been opened. *)
Definition retry_within_session (cfg : config) (e e' : env)
    (rs : run_state) : Prop :=
  let rs1 := step cfg e rs in
  last (trace (bot rs1)) = Some (Sleep RECONNECT_DELAY) ∧
  at_line rs1 = AtInnerLoop ∧
  retry_count rs1 = 0 ∧
  connects (trace (bot (step cfg e' rs1))) = connects (trace (bot rs)).

(** The ninth claim read literally, for one pass during which a signal
    arrives: the time spent waiting after the signal is less than the
    interval of the wait. *)
Definition wait_returns_early (interval : Z) (cfg : config) (e : env)
    (rs : run_state) : Prop :=
  (waited (after_signal
             (drop (length (trace (bot rs))) (trace (bot (step cfg e rs)))))
   < interval)%Z.

(** The eighth claim read literally, for two cycles in a row: the artifact
    that the first leaves behind is overwritten by the second, or is gone
    when the second is over. *)
Definition artifact_lives_one_cycle (cfg : config) (w1 w2 : world)
    (st : state) : Prop :=
  let st1 := (post_cupons cfg w1 st).2 in
  let st2 := (post_cupons cfg w2 st1).2 in
  is_Some (files st1 !! "cupom.png") →
  slot_written w2 st1 ∨ files st2 !! "cupom.png" = None.

(** ** Sample inputs *)

Definition cfg_none : config := {| SHRINKME_API := None |}.
Definition cfg_key : config := {| SHRINKME_API := Some "key" |}.

Definition sample_item (t : string) : search_item :=
  {| item_title := t; item_snippet := "desc"; item_link := "https://x/" ++ t;
     item_cse_image := None |}.

(** A world whose shuffle leaves the order alone, whose shortener and image
    host are unreachable, and which has no arial.ttf. *)
Definition sample_world (console : Res unit) (found : string → list string)
    (render send : Res unit) : world :=
  {| w_console := console;
     w_search := λ site, Ret (map sample_item (found site));
     w_random := λ i, i;
     w_shrinkme := λ _, Raise RequestException;
     w_image := λ _, Raise RequestException;
     w_arial := false;
     w_render := render;
     w_send := send |}.

Definition on_first_site (titles : list string) (site : string)
    : list string :=
  if String.eqb site "cuponomia.com" then titles else [].

Definition on_two_sites (t1 t2 : string) (site : string) : list string :=
  if String.eqb site "cuponomia.com" then [t1]
  else if String.eqb site "meliuz.com.br" then [t2] else [].

Definition sample_coupon (t : string) : coupon :=
  to_coupon "cuponomia.com" (sample_item t).

Definition fresh_bot : state := bot (boot ∅).

Definition with_history (titles : list string) : state :=
  set_posted (list_to_set titles) fresh_bot.

Definition sample_env (connect : Res unit) (w : world) (busy wait : bool)
    : env :=
  {| e_connect := connect; e_world := w;
     e_signal_busy := busy; e_signal_wait := wait |}.

(** A world in which the searches find nothing. *)
Definition idle_world : world :=
  sample_world (Ret tt) (λ _, []) (Ret tt) (Ret tt).

Definition env_down : env :=
  sample_env (Raise TelegramError) idle_world false false.
Definition env_up : env := sample_env (Ret tt) idle_world false false.

(** The run once the first session is open. *)
Definition connected_bot : run_state := step cfg_none env_up (boot ∅).

(** A cycle whose send raises, and a cycle whose console write raises. *)
Definition env_send_fault : env :=
  sample_env (Ret tt)
    (sample_world (Ret tt) (on_first_site ["A"]) (Ret tt)
       (Raise TelegramError))
    false false.

Definition env_console_fault : env :=
  sample_env (Ret tt)
    (sample_world (Raise OSError) (on_first_site ["A"]) (Ret tt) (Ret tt))
    false false.

(** A signal while the cycle runs, and a signal while a connection fails. *)
Definition env_signal_in_cycle : env :=
  sample_env (Ret tt) idle_world true false.
Definition env_signal_in_connect : env :=
  sample_env (Raise TelegramError) idle_world true false.

(** Two cycles: the first finds "A" and renders it; the second finds "B",
    which has no image url, and its rendering fails. *)
Definition world_a : world :=
  sample_world (Ret tt) (on_first_site ["A"]) (Ret tt) (Ret tt).
Definition world_b_no_image : world :=
  sample_world (Ret tt) (on_first_site ["B"]) (Raise OSError) (Ret tt).

(** ** Further vocabulary *)

(** What one site adds to the batch: its results as coupons, or nothing when
    the search raised. *)
Definition site_coupons (w : world) (site : string) : list coupon :=
  match w_search w site with
  | Ret items => map (to_coupon site) items
  | Raise _ => []
  end.

(** The titles of the batch that a world yields. *)
Definition batch_titles (w : world) : gset string :=
  match get_cupons w with
  | Ret cupons => list_to_set (map titulo cupons)
  | Raise _ => ∅
  end.

(** The effects a cycle added to the trace. *)
Definition added (st st' : state) : list effect :=
  drop (length (trace st)) (trace st').

(** A pass during which no signal arrives. *)
Definition quiet (e : env) : Prop :=
  e_signal_busy e = false ∧ e_signal_wait e = false.

(** * Properties *)

(** ** The shortener *)

Lemma shorten_url_total cfg api_get url :
  ∃ v, shorten_url cfg api_get url = Ret v.
Proof.
  unfold shorten_url, try_res.
  destruct (negb (truthy (SHRINKME_API cfg))); [by eexists|].
  destruct (_ ≫= _); by eexists.
Qed.

Lemma shorten_url_failed cfg api_get url :
  shortener_failed cfg (api_get url) = true →
  shorten_url cfg api_get url = Ret (JStr url).
Proof.
  unfold shortener_failed, shorten_url, try_res.
  destruct (negb (truthy (SHRINKME_API cfg))); [done|]. simpl.
  destruct (api_get url) as [r|e]; [|done]. simpl.
  unfold raise_for_status, json.
  destruct (error_status (status_code r)); [done|]. simpl.
  destruct (json_body r) as [[fields|]|]; simpl; try done.
  case_bool_decide; simpl; done.
Qed.

Lemma short_link_failed cfg w url :
  shortener_failed cfg (w_shrinkme w url) = true →
  short_link cfg w url = url.
Proof.
  intros H. unfold short_link. by rewrite shorten_url_failed.
Qed.

Lemma short_link_spec cfg w url :
  shorten_url cfg (w_shrinkme w) url = Ret (JStr (short_link cfg w url)) ∨
  ∃ r, shorten_url cfg (w_shrinkme w) url = Ret (JOther r) ∧
       short_link cfg w url = r.
Proof.
  unfold short_link.
  destruct (shorten_url_total cfg (w_shrinkme w) url) as [[s|r] ->]; eauto.
Qed.

Lemma string_app_assoc (a b c : string) : (a ++ b) ++ c = a ++ (b ++ c).
Proof.
  induction a as [|x a IH]; [done|].
  change (String x ((a ++ b) ++ c) = String x (a ++ (b ++ c))).
  by rewrite IH.
Qed.

Lemma make_caption_link titulo descricao url :
  occurs_in url (make_caption titulo descricao url).
Proof.
  exists ("🎁 " ++ titulo ++ nl ++ nl ++ "📝 " ++ descricao ++ nl ++ nl ++ "🔗 "),
    (nl ++ nl ++ "}").
  unfold make_caption. by rewrite !string_app_assoc.
Qed.

(** ** Gathering never raises *)

Lemma buscar_cupons_google_total w site :
  ∃ coupons, buscar_cupons_google w site = Ret coupons.
Proof.
  unfold buscar_cupons_google, try_res.
  destruct (w_search w site); simpl; by eexists.
Qed.

Lemma get_cupons_total w : ∃ cupons, get_cupons w = Ret cupons.
Proof.
  unfold get_cupons, try_res. destruct (_ ≫= _); by eexists.
Qed.

(** ** The artifact slot *)

Lemma download_image_spec w url path st :
  download_image w url path st =
    match download_result w url with
    | Some a => (Ret true, set_files (<[path:=a]> (files st)) st)
    | None => (Ret false, st)
    end.
Proof.
  unfold download_image, download_result, write_file. run_m.
  destruct (w_image w url) as [r|e]; [|done].
  by destruct (raise_for_status r).
Qed.

Lemma create_image_spec w titulo st :
  create_image w titulo st =
    match render_result w titulo with
    | Some a => (Ret tt, set_files (<["cupom.png":=a]> (files st)) st)
    | None => (Ret tt, st)
    end.
Proof.
  unfold create_image, render_result, write_file. run_m.
  by destruct (w_render w).
Qed.

Lemma produce_artifact_spec w cupom st :
  produce_artifact w cupom st =
    (Ret tt,
     match fresh_artifact w cupom with
     | Some a => set_files (<["cupom.png":=a]> (files st)) st
     | None => st
     end).
Proof.
  unfold produce_artifact, fresh_artifact.
  unfold mbind at 1. unfold M_bind.
  destruct (truthy (imagem cupom)).
  - rewrite download_image_spec.
    destruct (download_result w _); [done|].
    rewrite create_image_spec. by destruct (render_result w _).
  - unfold mret at 1. unfold M_ret.
    rewrite create_image_spec. by destruct (render_result w _).
Qed.

Lemma send_coupon_spec w caption st :
  send_coupon w caption st =
    match w_send w with
    | Ret _ => (Ret tt, emit (outgoing st caption) st)
    | Raise e => (Raise e, emit (SendFailed caption) st)
    end.
Proof.
  unfold send_coupon, outgoing, read_file, send_photo, send_message. run_m.
  destruct (files st !! "cupom.png"); by destruct (w_send w).
Qed.

Lemma post_one_spec cfg w cupom st :
  post_one cfg w cupom st =
    let st1 := produced w cupom st in
    let caption := caption_of cfg w cupom in
    match w_send w with
    | Ret _ =>
        (Ret tt,
         set_posted ({[titulo cupom]} ∪ posted_coupons st1)
           (emit (outgoing st1 caption) st1))
    | Raise e => (Raise e, emit (SendFailed caption) st1)
    end.
Proof.
  unfold post_one, caption_of, short_link.
  destruct (shorten_url_total cfg (w_shrinkme w) (link cupom)) as [v ->].
  unfold mbind at 1. unfold M_bind, lift.
  unfold mbind at 1. unfold M_bind.
  rewrite produce_artifact_spec. fold (produced w cupom st).
  unfold mbind at 1. unfold M_bind.
  rewrite send_coupon_spec.
  by destruct (w_send w).
Qed.

(** ** Deduplication *)

Lemma select_new_coupons_eq cupons st :
  select_new_coupons cupons st =
    match filter (is_new st) cupons with
    | [] => (Ret cupons, set_posted ∅ st)
    | c :: new_coupons => (Ret (c :: new_coupons), st)
    end.
Proof.
  unfold select_new_coupons, is_new. run_m.
  by destruct (filter _ cupons).
Qed.

Lemma filter_is_new_nil cupons st :
  filter (is_new st) cupons = [] ↔
  Forall (λ c, titulo c ∈ posted_coupons st) cupons.
Proof.
  induction cupons as [|c cupons IH]; [by split|].
  rewrite filter_cons. unfold is_new at 1.
  destruct (decide (titulo c ∉ posted_coupons st)) as [Hnew|Hold].
  - split; [done|]. intros H. by inversion H.
  - rewrite IH. apply dec_stable in Hold.
    split; [by constructor|]. intros H. by inversion H.
Qed.

Lemma filter_is_new_cons cupons st :
  Exists (is_new st) cupons →
  ∃ c new_coupons, filter (is_new st) cupons = c :: new_coupons.
Proof.
  intros H. destruct (filter (is_new st) cupons) as [|c l] eqn:E; [|eauto].
  apply filter_is_new_nil in E. apply Exists_exists in H as (c & Hc & Hnew).
  rewrite Forall_forall in E. destruct Hnew. by apply E.
Qed.

(** A non-empty batch always leaves a candidate to post. *)
Lemma select_new_coupons_cons c cupons st :
  ∃ cupom rest st1,
    select_new_coupons (c :: cupons) st = (Ret (cupom :: rest), st1).
Proof.
  rewrite select_new_coupons_eq.
  destruct (filter _ _); eauto.
Qed.

(** The chosen candidate is never in the history it is posted against. *)
Lemma select_new_coupons_head_new cupons st cupom rest st1 :
  select_new_coupons cupons st = (Ret (cupom :: rest), st1) →
  titulo cupom ∉ posted_coupons st1.
Proof.
  rewrite select_new_coupons_eq.
  destruct (filter (is_new st) cupons) as [|c l] eqn:E; intros ?; simplify_eq.
  - simpl. set_solver.
  - assert (cupom ∈ filter (is_new st1) cupons) as Hc by (rewrite E; left).
    apply list_elem_of_filter in Hc as [Hc _]. done.
Qed.

(** ** One cycle *)

Lemma post_cupons_console_fault cfg w st e :
  w_console w = Raise e → post_cupons cfg w st = (Raise e, st).
Proof. intros H. unfold post_cupons. run_m. by rewrite H. Qed.

Lemma post_cupons_empty cfg w st :
  w_console w = Ret tt → get_cupons w = Ret [] →
  post_cupons cfg w st = (Ret tt, st).
Proof. intros H1 H2. unfold post_cupons. run_m. by rewrite H1, H2. Qed.

Lemma post_cupons_spec cfg w st cupons cupom rest st1 :
  w_console w = Ret tt →
  get_cupons w = Ret cupons →
  select_new_coupons cupons st = (Ret (cupom :: rest), st1) →
  post_cupons cfg w st = (Ret tt, attempted cfg w cupom st1).
Proof.
  intros Hc Hg Hs. unfold post_cupons, attempted.
  unfold try_except at 1. unfold mbind at 1. unfold M_bind, lift.
  rewrite Hc. unfold mbind at 1. unfold M_bind. rewrite Hg.
  destruct cupons as [|c cupons].
  { rewrite select_new_coupons_eq in Hs. simpl in Hs. by inversion Hs. }
  unfold mbind at 1. unfold M_bind. rewrite Hs.
  unfold try_except. rewrite post_one_spec. simpl.
  by destruct (w_send w).
Qed.

(** With a working console a cycle returns, whatever else fails. *)
Lemma post_cupons_returns cfg w st :
  w_console w = Ret tt → ∃ st', post_cupons cfg w st = (Ret tt, st').
Proof.
  intros Hc. destruct (get_cupons_total w) as [[|c cupons] Hg].
  - eexists. by apply post_cupons_empty.
  - destruct (select_new_coupons_cons c cupons st) as (cupom & rest & st1 & Hs).
    eexists. by eapply post_cupons_spec.
Qed.

Lemma select_new_coupons_state cupons st new_coupons st1 :
  select_new_coupons cupons st = (Ret new_coupons, st1) →
  trace st1 = trace st ∧ files st1 = files st ∧
  should_restart st1 = should_restart st.
Proof.
  rewrite select_new_coupons_eq.
  destruct (filter _ _); intros ?; by simplify_eq.
Qed.

Lemma produced_state w cupom st :
  trace (produced w cupom st) = trace st ∧
  posted_coupons (produced w cupom st) = posted_coupons st ∧
  should_restart (produced w cupom st) = should_restart st.
Proof. unfold produced. by destruct (fresh_artifact w cupom). Qed.

Lemma attempted_trace cfg w cupom st1 :
  ∃ eff,
    trace (attempted cfg w cupom st1) = (trace st1 ++ [eff])%list ∧
    effect_caption eff = Some (caption_of cfg w cupom) ∧
    is_publish eff = succeeded (w_send w).
Proof.
  unfold attempted. destruct (produced_state w cupom st1) as (Ht & _ & _).
  destruct (w_send w); simpl; rewrite Ht.
  - eexists. split; [done|]. unfold outgoing.
    by destruct (files _ !! _).
  - by eexists.
Qed.

Lemma attempted_posted cfg w cupom st1 :
  posted_coupons (attempted cfg w cupom st1) =
    if succeeded (w_send w) then {[titulo cupom]} ∪ posted_coupons st1
    else posted_coupons st1.
Proof.
  unfold attempted. destruct (produced_state w cupom st1) as (_ & Hp & _).
  destruct (w_send w); simpl; by rewrite Hp.
Qed.

(** C1. Lines 112-117: when the batch is not empty and every title is in the
    history, the history is cleared and the whole batch goes on, unchanged;
    when some candidate is new, the history is left alone and exactly the new
    candidates go on, in their order; in every other case too the list that
    goes on is the sub-sequence of new candidates. *)
Theorem C1_select_new_coupons (cupons : list coupon) (st : state) :
  (cupons ≠ [] →
   Forall (λ c, titulo c ∈ posted_coupons st) cupons →
   select_new_coupons cupons st = (Ret cupons, set_posted ∅ st)) ∧
  (Exists (is_new st) cupons →
   select_new_coupons cupons st = (Ret (filter (is_new st) cupons), st)) ∧
  (¬ (cupons ≠ [] ∧ Forall (λ c, titulo c ∈ posted_coupons st) cupons) →
   (select_new_coupons cupons st).1 = Ret (filter (is_new st) cupons)).
Proof.
  rewrite select_new_coupons_eq. split_and!.
  - intros _ Hall. apply filter_is_new_nil in Hall. by rewrite Hall.
  - intros (c & l & ->)%filter_is_new_cons. done.
  - intros Hnot. destruct (filter (is_new st) cupons) as [|c l] eqn:E; [|done].
    simpl. destruct cupons as [|c cupons]; [done|].
    destruct Hnot. split; [done|]. by apply filter_is_new_nil.
Qed.

Lemma C1_select_new_coupons_witness :
  let abc := map sample_coupon ["A"; "B"; "C"] in
  select_new_coupons abc (with_history ["A"; "B"; "C"]) =
    (Ret abc, set_posted ∅ (with_history ["A"; "B"; "C"])) ∧
  select_new_coupons abc (with_history ["B"]) =
    (Ret (map sample_coupon ["A"; "C"]), with_history ["B"]) ∧
  (select_new_coupons [] (with_history ["B"])).1 = Ret [].
Proof.
  intros abc. split_and!.
  - apply (C1_select_new_coupons abc (with_history ["A"; "B"; "C"])).
    + done.
    + repeat constructor; vm_compute; reflexivity.
  - apply (C1_select_new_coupons abc (with_history ["B"])).
    apply Exists_cons_hd. vm_compute. intros H. discriminate H.
  - apply (C1_select_new_coupons [] (with_history ["B"])).
    intros [H _]. by apply H.
Defined.

(** C5. shorten_url returns a value on every input, never an exception;
    whenever the shortener fails (missing credential, request error or
    timeout, error status, unreadable body, status other than success) the
    value is the original url; and then the caption that post_one hands to
    the channel is built on the original link, which occurs in it verbatim. *)
Theorem C5_shortener_fallback (cfg : config) :
  (∀ api_get url, ∃ v, shorten_url cfg api_get url = Ret v) ∧
  (∀ api_get url,
     shortener_failed cfg (api_get url) = true →
     shorten_url cfg api_get url = Ret (JStr url)) ∧
  (∀ w cupom st,
     shortener_failed cfg (w_shrinkme w (link cupom)) = true →
     ∃ r st' eff,
       post_one cfg w cupom st = (r, st') ∧
       trace st' = (trace st ++ [eff])%list ∧
       effect_caption eff =
         Some (make_caption (titulo cupom) (descricao cupom) (link cupom)) ∧
       occurs_in (link cupom)
         (make_caption (titulo cupom) (descricao cupom) (link cupom))).
Proof.
  split_and!.
  - apply shorten_url_total.
  - apply shorten_url_failed.
  - intros w cupom st Hfail.
    destruct (attempted_trace cfg w cupom st) as (eff & Ht & Hc & _).
    unfold caption_of in Hc. rewrite short_link_failed in Hc by done.
    exists (if succeeded (w_send w) then Ret tt
            else match w_send w with Raise e => Raise e | Ret _ => Ret tt end),
      (attempted cfg w cupom st), eff.
    split_and!; [|done|done|apply make_caption_link].
    rewrite post_one_spec. unfold attempted. by destruct (w_send w).
Qed.

Lemma C5_shortener_fallback_witness :
  shorten_url cfg_key (λ _, Raise RequestException) "https://x/y" =
    Ret (JStr "https://x/y") ∧
  shorten_url cfg_none (λ _, Raise RequestException) "https://x/y" =
    Ret (JStr "https://x/y").
Proof.
  split.
  - apply (C5_shortener_fallback cfg_key). reflexivity.
  - apply (C5_shortener_fallback cfg_none). reflexivity.
Defined.

(** C10. When the candidates that go on after lines 112-117 are
    [cupom :: rest], the cycle makes one send, carrying the caption of
    [cupom], the first of them; the history afterwards is the one the send
    started from, with at most the title of [cupom] added. The candidate is
    fixed by the shuffled batch and the history alone. *)
Theorem C10_first_new_coupon_is_attempted (cfg : config) (w : world)
    (st : state) (cupons : list coupon) (cupom : coupon)
    (rest : list coupon) (st1 : state) :
  w_console w = Ret tt →
  get_cupons w = Ret cupons →
  select_new_coupons cupons st = (Ret (cupom :: rest), st1) →
  ∃ st' eff,
    post_cupons cfg w st = (Ret tt, st') ∧
    trace st' = (trace st ++ [eff])%list ∧
    effect_caption eff = Some (caption_of cfg w cupom) ∧
    (posted_coupons st' = posted_coupons st1 ∨
     posted_coupons st' = {[titulo cupom]} ∪ posted_coupons st1).
Proof.
  intros Hc Hg Hs.
  destruct (attempted_trace cfg w cupom st1) as (eff & Ht & Hcap & _).
  destruct (select_new_coupons_state _ _ _ _ Hs) as (Htr & _ & _).
  exists (attempted cfg w cupom st1), eff. split_and!.
  - by eapply post_cupons_spec.
  - by rewrite Ht, Htr.
  - done.
  - rewrite attempted_posted. destruct (succeeded (w_send w)); auto.
Qed.

Lemma C10_first_new_coupon_is_attempted_witness :
  ∃ st' eff,
    post_cupons cfg_none
      (sample_world (Ret tt) (on_first_site ["A"; "B"; "C"]) (Ret tt) (Ret tt))
      (with_history ["A"]) = (Ret tt, st') ∧
    trace st' = (trace (with_history ["A"]) ++ [eff])%list ∧
    effect_caption eff =
      Some (caption_of cfg_none
              (sample_world (Ret tt) (on_first_site ["A"; "B"; "C"])
                 (Ret tt) (Ret tt))
              (sample_coupon "B")) ∧
    (posted_coupons st' = posted_coupons (with_history ["A"]) ∨
     posted_coupons st' =
       {[titulo (sample_coupon "B")]} ∪ posted_coupons (with_history ["A"])).
Proof.
  apply (C10_first_new_coupon_is_attempted cfg_none _ (with_history ["A"])
           (map sample_coupon ["A"; "B"; "C"]) (sample_coupon "B")
           [sample_coupon "C"] (with_history ["A"]));
    reflexivity.
Defined.

(** C7. For the candidate [cupom] that a cycle selects: when the send
    succeeds, the history after the cycle is the history the publish attempt
    started from plus the title of [cupom]; when the send raises, it is that
    history unchanged; so the title is in the history afterwards exactly when
    the send succeeded. *)
Theorem C7_title_recorded_iff_send_succeeds (cfg : config) (w : world)
    (st : state) (cupons : list coupon) (cupom : coupon)
    (rest : list coupon) (st1 : state) :
  w_console w = Ret tt →
  get_cupons w = Ret cupons →
  select_new_coupons cupons st = (Ret (cupom :: rest), st1) →
  let st' := (post_cupons cfg w st).2 in
  (w_send w = Ret tt →
   posted_coupons st' = {[titulo cupom]} ∪ posted_coupons st1) ∧
  (∀ e, w_send w = Raise e → posted_coupons st' = posted_coupons st1) ∧
  (titulo cupom ∈ posted_coupons st' ↔ w_send w = Ret tt).
Proof.
  intros Hc Hg Hs st'. subst st'.
  rewrite (post_cupons_spec _ _ _ _ _ _ _ Hc Hg Hs). simpl.
  rewrite attempted_posted.
  pose proof (select_new_coupons_head_new _ _ _ _ _ Hs) as Hnew.
  split_and!.
  - by intros ->.
  - by intros e ->.
  - destruct (w_send w) as [[]|e]; simpl; split; try done.
    set_solver.
Qed.

Lemma C7_title_recorded_iff_send_succeeds_witness :
  let w := sample_world (Ret tt) (on_first_site ["A"; "B"]) (Ret tt)
             (Raise TelegramError) in
  let st' := (post_cupons cfg_none w (with_history ["A"])).2 in
  (w_send w = Ret tt →
   posted_coupons st' =
     {[titulo (sample_coupon "B")]} ∪ posted_coupons (with_history ["A"])) ∧
  (∀ e, w_send w = Raise e →
        posted_coupons st' = posted_coupons (with_history ["A"])) ∧
  (titulo (sample_coupon "B") ∈ posted_coupons st' ↔ w_send w = Ret tt).
Proof.
  intros w.
  apply (C7_title_recorded_iff_send_succeeds cfg_none w (with_history ["A"])
           (map sample_coupon ["A"; "B"]) (sample_coupon "B") []
           (with_history ["A"]));
    reflexivity.
Defined.

(** C2, counterexample. With two new candidates and a send that raises,
    nothing is published; with the same new title found on two sites and a
    send that succeeds, the candidate that was not sent has its title in the
    history all the same. *)
Lemma C2_counterexample :
  ¬ one_published_rest_unmarked cfg_none
      (sample_world (Ret tt) (on_first_site ["A"; "B"]) (Ret tt)
         (Raise TelegramError))
      fresh_bot ∧
  ¬ one_published_rest_unmarked cfg_none
      (sample_world (Ret tt) (on_two_sites "A" "A") (Ret tt) (Ret tt))
      fresh_bot.
Proof.
  split; intros H.
  - destruct (H (map sample_coupon ["A"; "B"]) eq_refl) as (c & _ & [eff He] & _).
    { apply Exists_cons_hd. vm_compute. intros E. discriminate E. }
    vm_compute in He. discriminate He.
  - destruct (H [sample_coupon "A"; to_coupon "meliuz.com.br" (sample_item "A")]
                eq_refl) as (c & Hin & _ & _ & Hrest).
    { apply Exists_cons_hd. vm_compute. intros E. discriminate E. }
    assert ("A" ∈ posted_coupons
              (post_cupons cfg_none
                 (sample_world (Ret tt) (on_two_sites "A" "A") (Ret tt) (Ret tt))
                 fresh_bot).2) as Hmarked by (vm_compute; reflexivity).
    assert (∀ c0, is_new fresh_bot c0) as Hnew.
    { intros c0. unfold is_new. simpl. set_solver. }
    apply list_elem_of_filter in Hin as [_ Hin].
    apply list_elem_of_In in Hin. destruct Hin as [<-|[<-|[]]].
    + apply (Hrest (to_coupon "meliuz.com.br" (sample_item "A"))).
      * apply list_elem_of_filter. split; [apply Hnew|]. right. left.
      * intros E. discriminate E.
      * exact Hmarked.
    + apply (Hrest (sample_coupon "A")).
      * apply list_elem_of_filter. split; [apply Hnew|]. left.
      * intros E. discriminate E.
      * exact Hmarked.
Qed.

Lemma select_new_coupons_keeps later st c :
  c ∈ later → is_new st c →
  ∃ new_coupons st1,
    select_new_coupons later st = (Ret new_coupons, st1) ∧ c ∈ new_coupons.
Proof.
  intros Hin Hnew. rewrite select_new_coupons_eq.
  assert (c ∈ filter (is_new st) later) as Hc
    by (apply list_elem_of_filter; done).
  destruct (filter (is_new st) later); [by inversion Hc|eauto].
Qed.

(** C2, amended. In a cycle whose batch has a candidate that is not in the
    history, one send is made, for the first new candidate. When the send
    succeeds that candidate is published and its title joins the history;
    when it raises nothing is published and the history is unchanged. Either
    way every other new candidate with a different title stays out of the
    history and passes lines 112-117 of any later cycle that finds it. *)
Theorem C2_at_most_one_publish (cfg : config) (w : world) (st : state)
    (cupons : list coupon) :
  w_console w = Ret tt →
  get_cupons w = Ret cupons →
  Exists (is_new st) cupons →
  ∃ cupom rest st' eff,
    filter (is_new st) cupons = cupom :: rest ∧
    post_cupons cfg w st = (Ret tt, st') ∧
    trace st' = (trace st ++ [eff])%list ∧
    effect_caption eff = Some (caption_of cfg w cupom) ∧
    (w_send w = Ret tt →
     is_publish eff = true ∧
     posted_coupons st' = {[titulo cupom]} ∪ posted_coupons st) ∧
    (∀ e, w_send w = Raise e →
     is_publish eff = false ∧ posted_coupons st' = posted_coupons st) ∧
    (∀ c, c ∈ rest → titulo c ≠ titulo cupom →
       (titulo c ∉ posted_coupons st') ∧
       (∀ later, c ∈ later →
          ∃ new_coupons st'',
            select_new_coupons later st' = (Ret new_coupons, st'') ∧
            c ∈ new_coupons)).
Proof.
  intros Hc Hg Hex.
  destruct (filter_is_new_cons _ _ Hex) as (cupom & rest & Hf).
  assert (select_new_coupons cupons st = (Ret (cupom :: rest), st)) as Hs
    by (rewrite select_new_coupons_eq, Hf; reflexivity).
  destruct (attempted_trace cfg w cupom st) as (eff & Ht & Hcap & Hpub).
  pose proof (attempted_posted cfg w cupom st) as Hp.
  exists cupom, rest, (attempted cfg w cupom st), eff.
  split_and!; try done.
  - by eapply post_cupons_spec.
  - intros Hok. rewrite Hok in Hpub, Hp. done.
  - intros e Hko. rewrite Hko in Hpub, Hp. done.
  - intros c Hin Hne.
    assert (is_new st c) as Hnew.
    { assert (c ∈ filter (is_new st) cupons) as Hc' by (rewrite Hf; by right).
      apply list_elem_of_filter in Hc'. tauto. }
    assert (titulo c ∉ posted_coupons (attempted cfg w cupom st)) as Hout.
    { rewrite Hp. unfold is_new in Hnew.
      destruct (succeeded (w_send w)); [|done].
      intros [?%elem_of_singleton|?]%elem_of_union; done. }
    split; [done|]. intros later Hl.
    by apply select_new_coupons_keeps.
Qed.

Lemma C2_at_most_one_publish_witness :
  ∃ cupom rest st' eff,
    filter (is_new (with_history ["A"]))
      (map sample_coupon ["A"; "B"; "C"]) = cupom :: rest ∧
    post_cupons cfg_none
      (sample_world (Ret tt) (on_first_site ["A"; "B"; "C"]) (Ret tt) (Ret tt))
      (with_history ["A"]) = (Ret tt, st') ∧
    trace st' = (trace (with_history ["A"]) ++ [eff])%list ∧
    is_publish eff = true ∧
    posted_coupons st' = {[titulo cupom]} ∪ posted_coupons (with_history ["A"]).
Proof.
  destruct (C2_at_most_one_publish cfg_none
              (sample_world (Ret tt) (on_first_site ["A"; "B"; "C"])
                 (Ret tt) (Ret tt))
              (with_history ["A"]) (map sample_coupon ["A"; "B"; "C"])
              eq_refl eq_refl)
    as (cupom & rest & st' & eff & Hf & Hp & Ht & _ & Hok & _).
  - apply Exists_cons_tl, Exists_cons_hd.
    vm_compute. intros E. discriminate E.
  - exists cupom, rest, st', eff.
    destruct (Hok eq_refl) as [H1 H2]. by split_and!.
Defined.

(** ** The reconnect loop *)

Lemma publishes_snoc tr e :
  is_publish e = false → publishes (tr ++ [e]) = publishes tr.
Proof.
  intros H. unfold publishes. rewrite filter_app, filter_cons, filter_nil.
  rewrite decide_False by (rewrite H; done). apply app_nil_r.
Qed.

Lemma initialize_bot_spec e st :
  initialize_bot e st =
    if succeeded (e_connect e) then (Ret true, emit Connected st)
    else (Ret false, emit ConnectFailed st).
Proof.
  unfold initialize_bot, test_connection. run_m.
  by destruct (e_connect e).
Qed.

Lemma publishes_deliver signal st :
  publishes (trace (deliver signal st)) = publishes (trace st).
Proof. destruct signal; [|done]. simpl. by apply publishes_snoc. Qed.

Lemma publishes_sleep seconds signal st :
  publishes (trace (sleep seconds signal st)) = publishes (trace st).
Proof.
  unfold sleep. rewrite publishes_deliver. simpl. by apply publishes_snoc.
Qed.

Lemma run_script_cons cfg e script rs :
  run_script cfg (e :: script) rs = run_script cfg script (step cfg e rs).
Proof. reflexivity. Qed.

Lemma exited_absorbs cfg script rs :
  at_line rs = Exited → run_script cfg script rs = rs.
Proof.
  intros H. induction script as [|e script IH]; [done|].
  rewrite run_script_cons.
  assert (step cfg e rs = rs) as -> by (unfold step; by rewrite H).
  done.
Qed.

(** One pass at line 166 when the connection fails. *)
Lemma step_connect_fails cfg e rs :
  at_line rs = AtOuterLoop →
  should_restart (bot rs) = true →
  succeeded (e_connect e) = false →
  step cfg e rs =
    let st2 := deliver (e_signal_busy e) (emit ConnectFailed (bot rs)) in
    if (MAX_RETRIES <=? S (retry_count rs))%nat then
      {| bot := set_should_restart false st2;
         retry_count := S (retry_count rs); at_line := Exited |}
    else
      {| bot := sleep RECONNECT_DELAY (e_signal_wait e) st2;
         retry_count := S (retry_count rs); at_line := AtOuterLoop |}.
Proof.
  intros Hat Hsr Hf. unfold step. rewrite Hat, Hsr, initialize_bot_spec, Hf.
  done.
Qed.

(** One pass at line 166 when the connection is established. *)
Lemma step_connect_ok cfg e rs :
  at_line rs = AtOuterLoop →
  should_restart (bot rs) = true →
  succeeded (e_connect e) = true →
  step cfg e rs =
    {| bot := deliver (e_signal_busy e) (emit Connected (bot rs));
       retry_count := 0; at_line := AtInnerLoop |}.
Proof.
  intros Hat Hsr Hf. unfold step. rewrite Hat, Hsr, initialize_bot_spec, Hf.
  done.
Qed.

Lemma step_flag_down_outer cfg e rs :
  at_line rs = AtOuterLoop →
  should_restart (bot rs) = false →
  step cfg e rs =
    {| bot := bot rs; retry_count := retry_count rs; at_line := Exited |}.
Proof. intros Hat Hsr. unfold step. by rewrite Hat, Hsr. Qed.

Lemma step_flag_down_inner cfg e rs :
  at_line rs = AtInnerLoop →
  should_restart (bot rs) = false →
  step cfg e rs =
    {| bot := bot rs; retry_count := retry_count rs; at_line := AtOuterLoop |}.
Proof. intros Hat Hsr. unfold step. by rewrite Hat, Hsr. Qed.

(** Whatever signals arrive, a run of failed connections from line 166 either
    has left the loop or has counted every one of them. *)
Lemma failed_connections cfg script : ∀ rs,
  at_line rs = AtOuterLoop →
  Forall (λ e, succeeded (e_connect e) = false) script →
  let rs' := run_script cfg script rs in
  publishes (trace (bot rs')) = publishes (trace (bot rs)) ∧
  ((at_line rs' = Exited ∧ should_restart (bot rs') = false) ∨
   (at_line rs' = AtOuterLoop ∧
    retry_count rs' = retry_count rs + length script ∧
    (script ≠ [] → retry_count rs' < MAX_RETRIES))).
Proof.
  induction script as [|e script IH]; intros rs Hat Hall.
  { simpl. split; [done|]. right. split_and!; [done|lia|done]. }
  apply Forall_cons in Hall as [He Hall]. rewrite run_script_cons.
  unfold length; fold (length script).
  destruct (should_restart (bot rs)) eqn:Hsr.
  - rewrite (step_connect_fails _ _ _ Hat Hsr He). cbv zeta.
    destruct (MAX_RETRIES <=? S (retry_count rs))%nat eqn:Hmax.
    + rewrite exited_absorbs by done. simpl.
      rewrite publishes_deliver. simpl. split; [|by left].
      by apply publishes_snoc.
    + apply Nat.leb_gt in Hmax.
      match goal with |- context [run_script cfg script ?r] =>
        destruct (IH r) as [Hp Hcases]; [done|done|] end.
      simpl in Hp, Hcases. split.
      * rewrite Hp, publishes_sleep, publishes_deliver. simpl.
        by apply publishes_snoc.
      * destruct Hcases as [?|(? & Hrc & Hlt)]; [by left|right].
        split_and!; [done|lia|]. intros _.
        destruct script; [simpl in *; lia|]. by apply Hlt.
  - rewrite (step_flag_down_outer _ _ _ Hat Hsr).
    rewrite exited_absorbs by done. simpl. split; [done|by left].
Qed.

(** Without signals, fewer than MAX_RETRIES failed connections keep the loop
    going. *)
Lemma failed_connections_quiet cfg script : ∀ rs,
  at_line rs = AtOuterLoop →
  should_restart (bot rs) = true →
  Forall (λ e, succeeded (e_connect e) = false ∧
               e_signal_busy e = false ∧ e_signal_wait e = false) script →
  retry_count rs + length script < MAX_RETRIES →
  let rs' := run_script cfg script rs in
  at_line rs' = AtOuterLoop ∧ should_restart (bot rs') = true ∧
  retry_count rs' = retry_count rs + length script.
Proof.
  induction script as [|e script IH]; intros rs Hat Hsr Hall Hlt.
  { simpl. split_and!; [done|done|lia]. }
  apply Forall_cons in Hall as [(He & Hb & Hw) Hall].
  rewrite run_script_cons. simpl in Hlt.
  rewrite (step_connect_fails _ _ _ Hat Hsr He). cbv zeta.
  rewrite Hb, Hw.
  destruct (MAX_RETRIES <=? S (retry_count rs))%nat eqn:Hmax.
  { apply Nat.leb_le in Hmax. lia. }
  match goal with |- context [run_script cfg script ?r] =>
    destruct (IH r) as (H1 & H2 & H3); [done|done|done|simpl; lia|] end.
  split_and!; [done|done|]. rewrite H3. simpl. lia.
Qed.

(** The inner loop never touches the counter. *)
Lemma step_inner_retry_count cfg e rs :
  at_line rs = AtInnerLoop → retry_count (step cfg e rs) = retry_count rs.
Proof.
  intros Hat. unfold step. rewrite Hat.
  destruct (should_restart (bot rs)); [|done].
  destruct (post_cupons cfg (e_world e) (bot rs)) as [[[]|x] st1]; done.
Qed.

(** C4. From line 166 with the counter at zero, MAX_RETRIES (5) connection
    failures in a row end the run: control is past the loop with the flag
    cleared, nothing was published meanwhile and no later pass does anything.
    Without signals the run is still going after each of the first four
    failures, so the fifth is the one that ends it. Every connection that
    succeeds sets the counter to zero, and the cycle loop leaves it there. *)
Theorem C4_max_retries_terminates (cfg : config) (script : list env)
    (rs : run_state) :
  at_line rs = AtOuterLoop →
  retry_count rs = 0 →
  should_restart (bot rs) = true →
  length script = MAX_RETRIES →
  Forall (λ e, succeeded (e_connect e) = false) script →
  let rs' := run_script cfg script rs in
  at_line rs' = Exited ∧
  should_restart (bot rs') = false ∧
  publishes (trace (bot rs')) = publishes (trace (bot rs)) ∧
  (∀ more, run_script cfg more rs' = rs') ∧
  (Forall (λ e, e_signal_busy e = false ∧ e_signal_wait e = false) script →
   ∀ k, k < MAX_RETRIES →
     let rsk := run_script cfg (take k script) rs in
     at_line rsk = AtOuterLoop ∧ should_restart (bot rsk) = true ∧
     retry_count rsk = k) ∧
  (∀ e rs0,
     at_line rs0 = AtOuterLoop → should_restart (bot rs0) = true →
     succeeded (e_connect e) = true →
     retry_count (step cfg e rs0) = 0 ∧
     at_line (step cfg e rs0) = AtInnerLoop) ∧
  (∀ e rs0,
     at_line rs0 = AtInnerLoop → retry_count rs0 = 0 →
     retry_count (step cfg e rs0) = 0).
Proof.
  intros Hat Hrc Hsr Hlen Hall rs'.
  destruct (failed_connections cfg script rs Hat Hall) as [Hp Hcases].
  fold rs' in Hp, Hcases.
  assert (at_line rs' = Exited ∧ should_restart (bot rs') = false) as [Hex Hoff].
  { destruct Hcases as [?|(_ & Hk & Hlt)]; [done|].
    assert (script ≠ []) as Hne by (intros ->; discriminate Hlen).
    specialize (Hlt Hne). lia. }
  split_and!; try done.
  - intros more. by apply exited_absorbs.
  - intros Hquiet k Hk.
    assert (Forall (λ e, succeeded (e_connect e) = false ∧
                         e_signal_busy e = false ∧ e_signal_wait e = false)
              (take k script)) as Hboth.
    { apply Forall_take. rewrite Forall_forall in Hall, Hquiet.
      apply Forall_forall. intros e He. split; [by apply Hall|by apply Hquiet]. }
    assert (length (take k script) = k) as Hlk
      by (rewrite length_take; lia).
    destruct (failed_connections_quiet cfg (take k script) rs Hat Hsr Hboth)
      as (H1 & H2 & H3); [lia|].
    split_and!; [done|done|]. rewrite H3. lia.
  - intros e rs0 Hat0 Hsr0 Hok.
    by rewrite (step_connect_ok _ _ _ Hat0 Hsr0 Hok).
  - intros e rs0 Hat0 Hrc0. by rewrite step_inner_retry_count.
Qed.

Lemma C4_max_retries_terminates_witness :
  let rs' := run_script cfg_none (replicate 5 env_down) (boot ∅) in
  at_line rs' = Exited ∧ should_restart (bot rs') = false ∧
  publishes (trace (bot rs')) = [] ∧
  at_line (run_script cfg_none (replicate 4 env_down) (boot ∅)) = AtOuterLoop.
Proof.
  pose proof (C4_max_retries_terminates cfg_none (replicate 5 env_down)
                (boot ∅) eq_refl eq_refl eq_refl eq_refl) as H.
  destruct H as (H1 & H2 & H3 & _ & H5 & _).
  - repeat constructor.
  - split_and!; [exact H1|exact H2|exact H3|].
    apply (H5 ltac:(repeat constructor) 4). unfold MAX_RETRIES. lia.
Defined.

Lemma trace_deliver signal st :
  trace (deliver signal st) =
    (trace st ++ if signal then [Signal] else [])%list.
Proof. destruct signal; simpl; [done|by rewrite app_nil_r]. Qed.

Lemma trace_sleep seconds signal st :
  trace (sleep seconds signal st) =
    (trace st ++ Sleep seconds :: if signal then [Signal] else [])%list.
Proof.
  unfold sleep. rewrite trace_deliver. simpl.
  by rewrite <- app_assoc.
Qed.

Lemma should_restart_deliver signal st :
  should_restart (deliver signal st) =
    if signal then false else should_restart st.
Proof. by destruct signal. Qed.

Lemma should_restart_sleep seconds signal st :
  should_restart (sleep seconds signal st) =
    if signal then false else should_restart st.
Proof. unfold sleep. by rewrite should_restart_deliver. Qed.

(** One pass at line 174. *)
Lemma step_cycle cfg e rs r st1 :
  at_line rs = AtInnerLoop →
  should_restart (bot rs) = true →
  post_cupons cfg (e_world e) (bot rs) = (r, st1) →
  step cfg e rs =
    {| bot := sleep (if succeeded r then POST_INTERVAL else RECONNECT_DELAY)
                (e_signal_wait e) (deliver (e_signal_busy e) st1);
       retry_count := retry_count rs;
       at_line := if succeeded r then AtInnerLoop else AtOuterLoop |}.
Proof.
  intros Hat Hsr Hp. unfold step. rewrite Hat, Hsr, Hp. by destruct r.
Qed.

(** A pass that starts at line 166 with the flag up opens a session. *)
Lemma step_outer_connects cfg e rs :
  at_line rs = AtOuterLoop →
  should_restart (bot rs) = true →
  ∃ eff tail,
    is_connect eff = true ∧
    trace (bot (step cfg e rs)) = (trace (bot rs) ++ eff :: tail)%list.
Proof.
  intros Hat Hsr. destruct (succeeded (e_connect e)) eqn:Hc.
  - rewrite (step_connect_ok _ _ _ Hat Hsr Hc). simpl.
    rewrite trace_deliver. simpl. rewrite <- app_assoc.
    by exists Connected, (if e_signal_busy e then [Signal] else []).
  - rewrite (step_connect_fails _ _ _ Hat Hsr Hc). cbv zeta.
    destruct (MAX_RETRIES <=? S (retry_count rs))%nat; simpl.
    + rewrite trace_deliver. simpl. rewrite <- app_assoc.
      by exists ConnectFailed, (if e_signal_busy e then [Signal] else []).
    + rewrite trace_sleep, trace_deliver. simpl. rewrite <- !app_assoc.
      by eexists ConnectFailed, _.
Qed.

(** Once the flag is down at a loop head, two passes leave the loop and
    nothing else happens. *)
Lemma flag_down_exits cfg e1 e2 rs :
  should_restart (bot rs) = false →
  at_line (run_script cfg [e1; e2] rs) = Exited ∧
  bot (run_script cfg [e1; e2] rs) = bot rs.
Proof.
  intros Hsr. rewrite !run_script_cons.
  destruct (at_line rs) eqn:Hat.
  - rewrite (step_flag_down_outer _ _ _ Hat Hsr).
    by rewrite exited_absorbs.
  - rewrite (step_flag_down_inner _ _ _ Hat Hsr).
    by rewrite step_flag_down_outer.
  - assert (step cfg e1 rs = rs) as -> by (unfold step; by rewrite Hat).
    assert (step cfg e2 rs = rs) as -> by (unfold step; by rewrite Hat).
    done.
Qed.

(** C3, counterexample. A send that raises is absorbed by the handler of line
    154: the pass ends with the POST_INTERVAL wait. An exception that leaves
    post_cupons is followed by the RECONNECT_DELAY wait and the break of line
    183: control is at line 166 and the next pass opens a second session. *)
Lemma C3_counterexample :
  ¬ retry_within_session cfg_none env_send_fault env_up connected_bot ∧
  ¬ retry_within_session cfg_none env_console_fault env_up connected_bot ∧
  last (trace (bot (step cfg_none env_send_fault connected_bot))) =
    Some (Sleep POST_INTERVAL) ∧
  trace (bot (run_script cfg_none [env_console_fault; env_up] connected_bot)) =
    [Connected; Sleep RECONNECT_DELAY; Connected].
Proof.
  split_and!.
  - intros (H & _). vm_compute in H. discriminate H.
  - intros (_ & H & _). vm_compute in H. discriminate H.
  - vm_compute. reflexivity.
  - vm_compute. reflexivity.
Qed.

(** C3, amended. In a pass of the cycle loop, faults of the search, of the
    shortener, of the image and of the send are absorbed inside post_cupons:
    with a working console the cycle returns, the wait is POST_INTERVAL and
    the next pass is again a cycle of the same session. When an exception
    leaves post_cupons the wait is RECONNECT_DELAY, control goes back to line
    166 and, if the flag is still up, the next pass opens a session again. In
    both cases the pass leaves retry_count as it was. *)
Theorem C3_cycle_failure_tiers (cfg : config) (e : env) (rs : run_state) :
  at_line rs = AtInnerLoop →
  should_restart (bot rs) = true →
  (w_console (e_world e) = Ret tt →
   ∃ st1,
     post_cupons cfg (e_world e) (bot rs) = (Ret tt, st1) ∧
     step cfg e rs =
       {| bot := sleep POST_INTERVAL (e_signal_wait e)
                   (deliver (e_signal_busy e) st1);
          retry_count := retry_count rs; at_line := AtInnerLoop |}) ∧
  (∀ x st1,
     post_cupons cfg (e_world e) (bot rs) = (Raise x, st1) →
     step cfg e rs =
       {| bot := sleep RECONNECT_DELAY (e_signal_wait e)
                   (deliver (e_signal_busy e) st1);
          retry_count := retry_count rs; at_line := AtOuterLoop |} ∧
     (∀ e', should_restart (bot (step cfg e rs)) = true →
        ∃ eff tail,
          is_connect eff = true ∧
          trace (bot (step cfg e' (step cfg e rs))) =
            (trace (bot (step cfg e rs)) ++ eff :: tail)%list)) ∧
  retry_count (step cfg e rs) = retry_count rs.
Proof.
  intros Hat Hsr. split_and!.
  - intros Hc. destruct (post_cupons_returns cfg (e_world e) (bot rs) Hc)
      as [st1 Hp].
    exists st1. split; [done|]. by rewrite (step_cycle _ _ _ _ _ Hat Hsr Hp).
  - intros x st1 Hp. rewrite (step_cycle _ _ _ _ _ Hat Hsr Hp). simpl.
    split; [done|]. intros e' Hup. by apply step_outer_connects.
  - by apply step_inner_retry_count.
Qed.

Lemma C3_cycle_failure_tiers_witness :
  at_line (step cfg_none env_send_fault connected_bot) = AtInnerLoop ∧
  at_line (step cfg_none env_console_fault connected_bot) = AtOuterLoop ∧
  retry_count (step cfg_none env_console_fault connected_bot) = 0.
Proof.
  destruct (C3_cycle_failure_tiers cfg_none env_send_fault connected_bot
              eq_refl eq_refl) as (Hret & _ & _).
  destruct (C3_cycle_failure_tiers cfg_none env_console_fault connected_bot
              eq_refl eq_refl) as (_ & Hraise & Hrc).
  destruct (Hret eq_refl) as (st1 & _ & ->).
  destruct (Hraise OSError (bot connected_bot) eq_refl) as [-> _].
  split_and!; reflexivity.
Defined.

(** C9, counterexample. A signal that arrives during the cycle is followed by
    the whole POST_INTERVAL wait, 21600 seconds; one that arrives during a
    failed connection by the whole RECONNECT_DELAY wait. *)
Lemma C9_counterexample :
  ¬ wait_returns_early POST_INTERVAL cfg_none env_signal_in_cycle
      connected_bot ∧
  ¬ wait_returns_early RECONNECT_DELAY cfg_none env_signal_in_connect
      (boot ∅) ∧
  trace (bot (step cfg_none env_signal_in_cycle connected_bot)) =
    [Connected; Signal; Sleep 21600].
Proof.
  split_and!.
  - intros H. vm_compute in H. discriminate H.
  - intros H. vm_compute in H. discriminate H.
  - vm_compute. reflexivity.
Qed.

(** C9, amended. The flag is read at the two loop heads only, and no wait is
    cut short. A signal that arrives during a pass clears the flag; the pass
    still ends with its whole wait (POST_INTERVAL after a cycle that
    returned, RECONNECT_DELAY after one that raised or after a failed
    connection); then the run leaves the loops within two passes, without a
    further cycle, connection or wait. *)
Theorem C9_flag_read_at_loop_heads (cfg : config) (e : env)
    (rs : run_state) :
  should_restart (bot rs) = true →
  e_signal_busy e = true ∨ (e_signal_wait e = true ∧ at_line rs = AtInnerLoop) →
  at_line rs ≠ Exited →
  let rs1 := step cfg e rs in
  should_restart (bot rs1) = false ∧
  (∀ e1 e2,
     at_line (run_script cfg [e1; e2] rs1) = Exited ∧
     bot (run_script cfg [e1; e2] rs1) = bot rs1) ∧
  (at_line rs = AtInnerLoop → e_signal_busy e = true →
   ∃ r st1 tail,
     post_cupons cfg (e_world e) (bot rs) = (r, st1) ∧
     trace (bot rs1) =
       (trace st1 ++
        Signal ::
        Sleep (if succeeded r then POST_INTERVAL else RECONNECT_DELAY) ::
        tail)%list) ∧
  (at_line rs = AtOuterLoop → e_signal_busy e = true →
   succeeded (e_connect e) = false → S (retry_count rs) < MAX_RETRIES →
   ∃ tail,
     trace (bot rs1) =
       (trace (bot rs) ++
        ConnectFailed :: Signal :: Sleep RECONNECT_DELAY :: tail)%list).
Proof.
  intros Hsr Hsig Hat rs1.
  assert (should_restart (bot rs1) = false) as Hoff.
  { subst rs1. destruct (at_line rs) eqn:Hl; [| |done].
    - destruct Hsig as [Hb|[_ ?]]; [|done].
      destruct (succeeded (e_connect e)) eqn:Hc.
      + rewrite (step_connect_ok _ _ _ Hl Hsr Hc). simpl.
        by rewrite should_restart_deliver, Hb.
      + rewrite (step_connect_fails _ _ _ Hl Hsr Hc). cbv zeta.
        destruct (MAX_RETRIES <=? S (retry_count rs))%nat; simpl; [done|].
        rewrite should_restart_sleep, should_restart_deliver, Hb.
        by destruct (e_signal_wait e).
    - destruct (post_cupons cfg (e_world e) (bot rs)) as [r st1] eqn:Hp.
      rewrite (step_cycle _ _ _ _ _ Hl Hsr Hp). simpl.
      rewrite should_restart_sleep, should_restart_deliver.
      destruct Hsig as [->|[-> _]]; [by destruct (e_signal_wait e)|done]. }
  split_and!.
  - done.
  - intros e1 e2. by apply flag_down_exits.
  - intros Hl Hb. subst rs1.
    destruct (post_cupons cfg (e_world e) (bot rs)) as [r st1] eqn:Hp.
    rewrite (step_cycle _ _ _ _ _ Hl Hsr Hp). simpl.
    rewrite trace_sleep, trace_deliver, Hb, <- app_assoc. simpl.
    by eexists r, st1, _.
  - intros Hl Hb Hc Hlt. subst rs1.
    rewrite (step_connect_fails _ _ _ Hl Hsr Hc). cbv zeta.
    destruct (MAX_RETRIES <=? S (retry_count rs))%nat eqn:Hmax.
    { apply Nat.leb_le in Hmax. lia. }
    simpl. rewrite trace_sleep, trace_deliver, Hb. simpl.
    rewrite <- !app_assoc. simpl. by eexists.
Qed.

Lemma C9_flag_read_at_loop_heads_witness :
  let rs1 := step cfg_none env_signal_in_cycle connected_bot in
  should_restart (bot rs1) = false ∧
  at_line (run_script cfg_none [env_up; env_up] rs1) = Exited ∧
  bot (run_script cfg_none [env_up; env_up] rs1) = bot rs1.
Proof.
  intros rs1.
  destruct (C9_flag_read_at_loop_heads cfg_none env_signal_in_cycle
              connected_bot eq_refl (or_introl eq_refl))
    as (H1 & H2 & _).
  - intros H. discriminate H.
  - split; [exact H1|]. exact (H2 env_up env_up).
Defined.

(** ** The artifact across cycles *)

Lemma produced_files w cupom st :
  files (produced w cupom st) =
    match fresh_artifact w cupom with
    | Some a => <["cupom.png":=a]> (files st)
    | None => files st
    end.
Proof. unfold produced. by destruct (fresh_artifact w cupom). Qed.

Lemma attempted_files cfg w cupom st1 :
  files (attempted cfg w cupom st1) = files (produced w cupom st1).
Proof. unfold attempted. by destruct (w_send w). Qed.

Lemma attempted_effect cfg w cupom st1 :
  trace (attempted cfg w cupom st1) =
    (trace st1 ++
     [if succeeded (w_send w)
      then outgoing (produced w cupom st1) (caption_of cfg w cupom)
      else SendFailed (caption_of cfg w cupom)])%list.
Proof.
  unfold attempted. destruct (produced_state w cupom st1) as (Ht & _ & _).
  destruct (w_send w); simpl; by rewrite Ht.
Qed.

(** With nothing on disk and no image obtained, the caption goes as text. *)
Lemma text_only_when_slot_empty cfg w cupom st1 :
  files st1 !! "cupom.png" = None →
  fresh_artifact w cupom = None →
  w_send w = Ret tt →
  trace (attempted cfg w cupom st1) =
    (trace st1 ++ [SendMessage (caption_of cfg w cupom)])%list.
Proof.
  intros Hdisk Hnone Hok. rewrite attempted_effect, Hok. simpl.
  unfold outgoing. by rewrite produced_files, Hnone, Hdisk.
Qed.

(** With a file left on disk and no image obtained, that file goes as the
    photo. *)
Lemma leftover_file_sent cfg w cupom st1 old :
  files st1 !! "cupom.png" = Some old →
  fresh_artifact w cupom = None →
  w_send w = Ret tt →
  trace (attempted cfg w cupom st1) =
    (trace st1 ++ [SendPhoto old (caption_of cfg w cupom)])%list.
Proof.
  intros Hdisk Hnone Hok. rewrite attempted_effect, Hok. simpl.
  unfold outgoing. by rewrite produced_files, Hnone, Hdisk.
Qed.

(** C6. The second cycle obtains no image for "B", by download or by
    rendering, and the send succeeds: what it sends is not the text-only
    caption but a photo, the file that the first cycle rendered for "A",
    under the caption of "B". *)
Theorem C6_leftover_artifact_sent :
  let st1 := (post_cupons cfg_none world_a fresh_bot).2 in
  let st2 := (post_cupons cfg_none world_b_no_image st1).2 in
  imagem (sample_coupon "B") = None ∧
  fresh_artifact world_b_no_image (sample_coupon "B") = None ∧
  drop (length (trace st1)) (trace st2) =
    [SendPhoto (Rendered "A" DefaultFont)
       (caption_of cfg_none world_b_no_image (sample_coupon "B"))].
Proof. vm_compute. split_and!; reflexivity. Qed.

(** C8, counterexample. The first cycle renders "A" and publishes it; the
    second finds no candidate and writes nothing; the file of the first is
    on disk after both. *)
Lemma C8_counterexample :
  ¬ artifact_lives_one_cycle cfg_none world_a idle_world fresh_bot ∧
  files (post_cupons cfg_none idle_world
           (post_cupons cfg_none world_a fresh_bot).2).2 !! "cupom.png" =
    Some (Rendered "A" DefaultFont).
Proof.
  split; [|vm_compute; reflexivity].
  intros H. destruct H as [Hw|Hgone].
  - eexists. vm_compute. reflexivity.
  - destruct Hw as (cupons & cupom & rest & st1 & a & Hg & Hs & _).
    assert (cupons = []) as -> by (vm_compute in Hg; congruence).
    rewrite select_new_coupons_eq in Hs. simpl in Hs. discriminate Hs.
  - vm_compute in Hgone. discriminate Hgone.
Qed.

(** C8, amended. A cycle writes no file but cupom.png, so there is one
    artifact file at most; it never removes it: a file that is there before
    the cycle is there after it; and when the cycle obtains an image for its
    candidate, by download or by rendering, that image is what cupom.png
    holds afterwards and what a photo sent in the cycle carries. *)
Theorem C8_single_slot (cfg : config) (w : world) (st : state) :
  let st' := (post_cupons cfg w st).2 in
  (∀ path, path ≠ "cupom.png" → files st' !! path = files st !! path) ∧
  (is_Some (files st !! "cupom.png") → is_Some (files st' !! "cupom.png")) ∧
  (∀ cupons cupom rest st1 a,
     w_console w = Ret tt →
     get_cupons w = Ret cupons →
     select_new_coupons cupons st = (Ret (cupom :: rest), st1) →
     fresh_artifact w cupom = Some a →
     files st' !! "cupom.png" = Some a ∧
     ∀ photo caption,
       SendPhoto photo caption ∈ drop (length (trace st)) (trace st') →
       photo = a).
Proof.
  intros st'.
  assert (st' = st ∨
          ∃ cupons cupom rest st1,
            w_console w = Ret tt ∧ get_cupons w = Ret cupons ∧
            select_new_coupons cupons st = (Ret (cupom :: rest), st1) ∧
            st' = attempted cfg w cupom st1) as Hcases.
  { subst st'. destruct (w_console w) as [[]|x] eqn:Hc.
    - destruct (get_cupons_total w) as [[|c cupons] Hg].
      + left. by rewrite post_cupons_empty.
      + destruct (select_new_coupons_cons c cupons st)
          as (cupom & rest & st1 & Hs).
        right. exists (c :: cupons), cupom, rest, st1.
        by rewrite (post_cupons_spec _ _ _ _ _ _ _ Hc Hg Hs).
    - left. by rewrite (post_cupons_console_fault _ _ _ _ Hc). }
  split_and!.
  - intros path Hne.
    destruct Hcases as [->|(cupons & cupom & rest & st1 & _ & _ & Hs & ->)];
      [done|].
    destruct (select_new_coupons_state _ _ _ _ Hs) as (_ & Hf & _).
    rewrite attempted_files, produced_files, Hf.
    destruct (fresh_artifact w cupom); [|done].
    by rewrite lookup_insert_ne.
  - intros Hsome.
    destruct Hcases as [->|(cupons & cupom & rest & st1 & _ & _ & Hs & ->)];
      [done|].
    destruct (select_new_coupons_state _ _ _ _ Hs) as (_ & Hf & _).
    rewrite attempted_files, produced_files, Hf.
    destruct (fresh_artifact w cupom); [|done].
    rewrite lookup_insert_eq. by eexists.
  - intros cupons cupom rest st1 a Hc Hg Hs Hfresh. subst st'.
    rewrite (post_cupons_spec _ _ _ _ _ _ _ Hc Hg Hs). simpl.
    destruct (select_new_coupons_state _ _ _ _ Hs) as (Htr & _ & _).
    assert (files (produced w cupom st1) !! "cupom.png" = Some a) as Hslot
      by (rewrite produced_files, Hfresh; apply lookup_insert_eq).
    split.
    + by rewrite attempted_files.
    + intros photo caption. rewrite attempted_effect, <- Htr.
      rewrite drop_app_length. intros Hin.
      apply list_elem_of_singleton in Hin.
      unfold outgoing in Hin. rewrite Hslot in Hin.
      destruct (succeeded (w_send w)); congruence.
Qed.

Lemma C8_single_slot_witness :
  let st' := (post_cupons cfg_none world_a fresh_bot).2 in
  files st' !! "cupom.png" = Some (Rendered "A" DefaultFont) ∧
  ∀ photo caption,
    SendPhoto photo caption ∈ drop (length (trace fresh_bot)) (trace st') →
    photo = Rendered "A" DefaultFont.
Proof.
  intros st'.
  destruct (C8_single_slot cfg_none world_a fresh_bot) as (_ & _ & H).
  apply (H (map sample_coupon ["A"]) (sample_coupon "A") [] fresh_bot);
    reflexivity.
Defined.

(** * Further properties of the code *)

(** ** Gathering *)

Lemma insert_head_perm {A} (t : list A) (j : nat) (a b : A) :
  t !! j = Some b → b :: <[j:=a]> t ≡ₚ a :: t.
Proof.
  revert j. induction t as [|h t IH]; intros [|j] Hj; simplify_eq/=.
  - apply perm_swap.
  - rewrite perm_swap, (IH j Hj). apply perm_swap.
Qed.

Lemma swap_perm {A} (i j : nat) (x : list A) : swap i j x ≡ₚ x.
Proof.
  unfold swap.
  destruct (x !! i) as [a|] eqn:Hi; [|done].
  destruct (x !! j) as [b|] eqn:Hj; [|done].
  revert i j Hi Hj. induction x as [|h x IH]; intros [|i] [|j] Hi Hj;
    simplify_eq/=.
  - done.
  - by apply insert_head_perm.
  - by apply insert_head_perm.
  - by rewrite (IH i j).
Qed.

Lemma shuffle_from_perm {A} (rand : nat → nat) (i : nat) (x : list A) :
  shuffle_from rand i x ≡ₚ x.
Proof.
  revert x. induction i as [|i IH]; intros x; [done|].
  simpl. by rewrite IH, swap_perm.
Qed.

Lemma buscar_cupons_google_eq w site :
  buscar_cupons_google w site = Ret (site_coupons w site).
Proof.
  unfold buscar_cupons_google, site_coupons, try_res.
  by destruct (w_search w site).
Qed.

Lemma extend_all_eq w ss : ∀ all_coupons,
  extend_all w ss all_coupons =
    Ret (all_coupons ++ concat (map (site_coupons w) ss))%list.
Proof.
  induction ss as [|site ss IH]; intros acc; simpl.
  - by rewrite app_nil_r.
  - rewrite buscar_cupons_google_eq. simpl. rewrite IH.
    by rewrite <- app_assoc.
Qed.

Lemma get_cupons_eq w :
  get_cupons w =
    Ret (shuffle (w_random w) (concat (map (site_coupons w) sites))).
Proof. unfold get_cupons. by rewrite extend_all_eq. Qed.

(** X1. get_cupons returns, as a value, a rearrangement of what the three
    sites returned, taken in the order of [sites]: nothing is lost and
    nothing is added by the shuffle, whatever the random source draws, and a
    site whose search raised adds nothing while the others still count. *)
Theorem X1_get_cupons_permutation (w : world) :
  ∃ cupons,
    get_cupons w = Ret cupons ∧
    cupons ≡ₚ (site_coupons w "cuponomia.com" ++
               site_coupons w "meliuz.com.br" ++
               site_coupons w "pelando.com.br")%list.
Proof.
  eexists. split; [apply get_cupons_eq|].
  unfold shuffle. rewrite shuffle_from_perm. simpl. by rewrite app_nil_r.
Qed.

Lemma elem_of_concat_map {A B} (f : A → list B) (l : list A) (y : B) :
  y ∈ concat (map f l) → ∃ x, x ∈ l ∧ y ∈ f x.
Proof.
  induction l as [|a l IH]; simpl; [by intros ?%elem_of_nil|].
  intros [Hy|Hy]%elem_of_app.
  - exists a. split; [left|done].
  - destruct (IH Hy) as (x & Hx & Hyx). exists x. split; [by right|done].
Qed.

(** X2. Every coupon of the batch names as its source one of the three sites
    and carries the title, snippet, link and image of one result of the
    search on that very site. *)
Theorem X2_get_cupons_provenance (w : world) (cupons : list coupon)
    (c : coupon) :
  get_cupons w = Ret cupons →
  c ∈ cupons →
  fonte c ∈ sites ∧
  ∃ items item,
    w_search w (fonte c) = Ret items ∧ item ∈ items ∧
    c = to_coupon (fonte c) item.
Proof.
  rewrite get_cupons_eq. intros [= <-] Hin.
  unfold shuffle in Hin. rewrite shuffle_from_perm in Hin.
  apply (elem_of_concat_map (site_coupons w) sites) in Hin
    as (site & Hsite & Hc).
  unfold site_coupons in Hc.
  destruct (w_search w site) as [items|x] eqn:Hs; [|by inversion Hc].
  apply list_elem_of_In, in_map_iff in Hc as (item & <- & Hitem).
  apply list_elem_of_In in Hitem.
  simpl. split; [done|]. by exists items, item.
Qed.

Lemma X2_get_cupons_provenance_witness :
  fonte (sample_coupon "B") ∈ sites ∧
  ∃ items item,
    w_search world_a (fonte (sample_coupon "A")) = Ret items ∧
    item ∈ items ∧
    sample_coupon "A" = to_coupon (fonte (sample_coupon "A")) item.
Proof.
  split.
  - apply (X2_get_cupons_provenance
             (sample_world (Ret tt) (on_first_site ["A"; "B"]) (Ret tt) (Ret tt))
             (map sample_coupon ["A"; "B"]) (sample_coupon "B") eq_refl).
    right. left.
  - apply (X2_get_cupons_provenance world_a (map sample_coupon ["A"])
             (sample_coupon "A") eq_refl).
    left.
Defined.

(** The ways a cycle can go. *)
Lemma post_cupons_cases cfg w st :
  (∃ x, w_console w = Raise x ∧ post_cupons cfg w st = (Raise x, st)) ∨
  (w_console w = Ret tt ∧ get_cupons w = Ret [] ∧
   post_cupons cfg w st = (Ret tt, st)) ∨
  (∃ cupons cupom rest st1,
     w_console w = Ret tt ∧ get_cupons w = Ret cupons ∧
     select_new_coupons cupons st = (Ret (cupom :: rest), st1) ∧
     post_cupons cfg w st = (Ret tt, attempted cfg w cupom st1)).
Proof.
  destruct (w_console w) as [[]|x] eqn:Hc.
  - destruct (get_cupons_total w) as [[|c cupons] Hg].
    + right. left. split_and!; [done|done|by apply post_cupons_empty].
    + destruct (select_new_coupons_cons c cupons st)
        as (cupom & rest & st1 & Hs).
      right. right. exists (c :: cupons), cupom, rest, st1.
      split_and!; [done|done|done|by eapply post_cupons_spec].
  - left. exists x. split; [done|by apply post_cupons_console_fault].
Qed.

(** X3. When every search raised or found nothing, the cycle is a no-op: it
    returns without a send, and the history, the disk and the flag are
    exactly as before. In particular the history is not cleared then. *)
Theorem X3_empty_gather_changes_nothing (cfg : config) (w : world)
    (st : state) :
  w_console w = Ret tt →
  (∀ site, site ∈ sites → site_coupons w site = []) →
  get_cupons w = Ret [] ∧ post_cupons cfg w st = (Ret tt, st).
Proof.
  intros Hc Hnone.
  assert (get_cupons w = Ret []) as Hg.
  { rewrite get_cupons_eq. unfold sites in *. simpl.
    rewrite !Hnone by (repeat constructor). done. }
  split; [done|]. by apply post_cupons_empty.
Qed.

Lemma X3_empty_gather_changes_nothing_witness :
  post_cupons cfg_none
    (sample_world (Ret tt) (λ _, []) (Ret tt) (Ret tt))
    (with_history ["A"]) = (Ret tt, with_history ["A"]).
Proof.
  apply (X3_empty_gather_changes_nothing cfg_none
           (sample_world (Ret tt) (λ _, []) (Ret tt) (Ret tt))
           (with_history ["A"]) eq_refl).
  intros site _. reflexivity.
Defined.

(** ** Deduplication and one cycle *)

(** X4. Whatever the batch and the history, the candidates that lines 112-117
    pass on are a sub-sequence of the batch, none of them has its title in
    the history as the step leaves it, the list is empty only for an empty
    batch, and the step never adds a title to the history. *)
Theorem X4_select_new_coupons_invariants (cupons new_coupons : list coupon)
    (st st1 : state) :
  select_new_coupons cupons st = (Ret new_coupons, st1) →
  new_coupons `sublist_of` cupons ∧
  Forall (is_new st1) new_coupons ∧
  (new_coupons = [] ↔ cupons = []) ∧
  posted_coupons st1 ⊆ posted_coupons st.
Proof.
  rewrite select_new_coupons_eq.
  destruct (filter (is_new st) cupons) as [|c l] eqn:E; intros ?; simplify_eq.
  - split_and!.
    + done.
    + apply Forall_forall. intros c _. unfold is_new. simpl. set_solver.
    + done.
    + simpl. set_solver.
  - split_and!.
    + rewrite <- E. apply sublist_filter.
    + rewrite <- E. apply Forall_forall. intros x Hx.
      by apply list_elem_of_filter in Hx as [? _].
    + split; [done|]. intros ->. by rewrite filter_nil in E.
    + done.
Qed.

Lemma X4_select_new_coupons_invariants_witness :
  map sample_coupon ["A"; "C"] `sublist_of` map sample_coupon ["A"; "B"; "C"] ∧
  Forall (is_new (with_history ["B"])) (map sample_coupon ["A"; "C"]).
Proof.
  destruct (X4_select_new_coupons_invariants
              (map sample_coupon ["A"; "B"; "C"]) (map sample_coupon ["A"; "C"])
              (with_history ["B"]) (with_history ["B"]) eq_refl)
    as (H1 & H2 & _).
  by split.
Defined.

(** X5. A candidate whose title is already in the history is posted again
    only by a reset: if the candidate the cycle selects has its title in the
    history the cycle started with, then every title of the batch was in that
    history, and after the cycle the history holds at most that one title. *)
Theorem X5_repost_only_after_reset (cfg : config) (w : world) (st : state)
    (cupons : list coupon) (cupom : coupon) (rest : list coupon)
    (st1 : state) :
  w_console w = Ret tt →
  get_cupons w = Ret cupons →
  select_new_coupons cupons st = (Ret (cupom :: rest), st1) →
  titulo cupom ∈ posted_coupons st →
  Forall (λ c, titulo c ∈ posted_coupons st) cupons ∧
  posted_coupons (post_cupons cfg w st).2 ⊆ {[titulo cupom]}.
Proof.
  intros Hc Hg Hs Hold.
  rewrite (post_cupons_spec _ _ _ _ _ _ _ Hc Hg Hs). simpl.
  rewrite attempted_posted.
  rewrite select_new_coupons_eq in Hs.
  destruct (filter (is_new st) cupons) as [|c l] eqn:E; simplify_eq.
  - split; [by apply filter_is_new_nil|].
    simpl. destruct (succeeded (w_send w));
      [by rewrite (right_id_L ∅ (∪))|apply empty_subseteq].
  - assert (cupom ∈ filter (is_new st1) cupons) as Hin by (rewrite E; left).
    apply list_elem_of_filter in Hin as [Hnew _]. by destruct Hnew.
Qed.

Lemma X5_repost_only_after_reset_witness :
  Forall (λ c, titulo c ∈ posted_coupons (with_history ["A"; "B"]))
    (map sample_coupon ["A"; "B"]) ∧
  posted_coupons
    (post_cupons cfg_none
       (sample_world (Ret tt) (on_first_site ["A"; "B"]) (Ret tt) (Ret tt))
       (with_history ["A"; "B"])).2 ⊆ {[titulo (sample_coupon "A")]}.
Proof.
  apply (X5_repost_only_after_reset cfg_none
           (sample_world (Ret tt) (on_first_site ["A"; "B"]) (Ret tt) (Ret tt))
           (with_history ["A"; "B"]) (map sample_coupon ["A"; "B"])
           (sample_coupon "A") [sample_coupon "B"]
           (set_posted ∅ (with_history ["A"; "B"])));
    reflexivity.
Defined.

Lemma select_new_coupons_posted cupons st new_coupons st1 :
  select_new_coupons cupons st = (Ret new_coupons, st1) →
  posted_coupons st1 ⊆ posted_coupons st.
Proof.
  rewrite select_new_coupons_eq.
  destruct (filter _ _); intros ?; simplify_eq; [|done].
  simpl. apply empty_subseteq.
Qed.

Lemma added_app st st' l :
  trace st' = (trace st ++ l)%list → added st st' = l.
Proof. intros H. unfold added. by rewrite H, drop_app_length. Qed.

(** X6. Whatever the world does, a cycle leaves the shutdown flag as it was,
    only appends to the trace, and appends at most one effect, which is a
    send (photo, text, or a send that raised): a cycle never sleeps, never
    touches the session and never sends twice. The history has at most one
    title more than before. *)
Theorem X6_cycle_frame (cfg : config) (w : world) (st : state) :
  let st' := (post_cupons cfg w st).2 in
  should_restart st' = should_restart st ∧
  trace st' = (trace st ++ added st st')%list ∧
  (length (added st st') ≤ 1)%nat ∧
  Forall (λ e, is_Some (effect_caption e)) (added st st') ∧
  (size (posted_coupons st') ≤ S (size (posted_coupons st)))%nat.
Proof.
  intros st'. subst st'.
  destruct (post_cupons_cases cfg w st)
    as [(x & _ & ->)|[(_ & _ & ->)|
         (cupons & cupom & rest & st1 & _ & _ & Hs & ->)]]; simpl.
  - rewrite (added_app st st []) by (by rewrite app_nil_r).
    rewrite app_nil_r. split_and!; [done|done|simpl; lia|done|lia].
  - rewrite (added_app st st []) by (by rewrite app_nil_r).
    rewrite app_nil_r. split_and!; [done|done|simpl; lia|done|lia].
  - destruct (select_new_coupons_state _ _ _ _ Hs) as (Htr & _ & Hsr).
    destruct (attempted_trace cfg w cupom st1) as (eff & Ht & Hcap & _).
    rewrite Htr in Ht. rewrite (added_app _ _ _ Ht).
    split_and!.
    + rewrite <- Hsr. unfold attempted.
      destruct (produced_state w cupom st1) as (_ & _ & Hp).
      by destruct (w_send w).
    + done.
    + simpl. lia.
    + constructor; [by rewrite Hcap|done].
    + rewrite attempted_posted.
      assert (size (posted_coupons st1) ≤ size (posted_coupons st))%nat
        as Hle.
      { apply subseteq_size. by eapply select_new_coupons_posted. }
      destruct (succeeded (w_send w)); [|lia].
      rewrite size_union_alt, size_singleton.
      pose proof (subseteq_size (posted_coupons st1 ∖ {[titulo cupom]})
                    (posted_coupons st1)) as Hd.
      assert (posted_coupons st1 ∖ {[titulo cupom]} ⊆ posted_coupons st1)
        as Hsub by (by apply subseteq_difference_l).
      specialize (Hd Hsub). lia.
Qed.

(** X7. When the shortener does not fail (a key is set, the request returns
    without an error status, the body is a JSON object whose status is
    success), shorten_url returns the shortenedUrl field of the reply, and
    the original url when the reply has no such field. *)
Theorem X7_shorten_url_success (cfg : config)
    (api_get : string → Res response) (url : string) :
  shortener_failed cfg (api_get url) = false →
  ∃ r fields,
    api_get url = Ret r ∧ json_body r = Some (JObject fields) ∧
    shorten_url cfg api_get url =
      Ret (default (JStr url) (fields !! "shortenedUrl")).
Proof.
  unfold shortener_failed, shorten_url, try_res.
  destruct (negb (truthy (SHRINKME_API cfg))); [done|]. simpl.
  destruct (api_get url) as [r|e]; [|done]. simpl.
  unfold raise_for_status, json.
  destruct (error_status (status_code r)); [done|]. simpl.
  destruct (json_body r) as [[fields|]|] eqn:Hj; simpl; try done.
  case_bool_decide; simpl; [|done].
  intros _. by exists r, fields.
Qed.

Lemma X7_shorten_url_success_witness :
  ∃ r fields,
    Ret {| status_code := 200;
           json_body := Some (JObject {[ "status" := JStr "success" ]});
           content := "" |} = Ret r ∧
    json_body r = Some (JObject fields) ∧
    shorten_url cfg_key
      (λ _, Ret {| status_code := 200;
                   json_body := Some (JObject {[ "status" := JStr "success" ]});
                   content := "" |})
      "https://x/y" =
      Ret (default (JStr "https://x/y") (fields !! "shortenedUrl")).
Proof.
  apply (X7_shorten_url_success cfg_key
           (λ _, Ret {| status_code := 200;
                        json_body :=
                          Some (JObject {[ "status" := JStr "success" ]});
                        content := "" |})
           "https://x/y").
  reflexivity.
Defined.

(** X8. Lines 127-132 never raise. Without an image url, or with an empty
    one, no download is tried and the step is create_image alone. With a url
    whose download succeeds, cupom.png holds the downloaded bytes and nothing
    is rendered over them. With a url whose request raises or returns an
    error status, the step falls back to create_image on a disk that the
    failed download left untouched. *)
Theorem X8_download_before_render (w : world) (cupom : coupon) (st : state) :
  (∃ st', produce_artifact w cupom st = (Ret tt, st')) ∧
  (truthy (imagem cupom) = false →
   produce_artifact w cupom st = create_image w (titulo cupom) st) ∧
  (∀ url r,
     imagem cupom = Some url → url ≠ "" →
     w_image w url = Ret r → error_status (status_code r) = false →
     produce_artifact w cupom st =
       (Ret tt,
        set_files (<["cupom.png":=Downloaded (content r)]> (files st)) st)) ∧
  (∀ url,
     imagem cupom = Some url →
     (∀ r, w_image w url = Ret r → error_status (status_code r) = true) →
     produce_artifact w cupom st = create_image w (titulo cupom) st).
Proof.
  split_and!.
  - rewrite produce_artifact_spec. by eexists.
  - intros Hno. unfold produce_artifact. rewrite Hno. done.
  - intros url r Hurl Hne Hget Hok.
    rewrite produce_artifact_spec. unfold fresh_artifact, download_result.
    rewrite Hurl. simpl.
    destruct (String.eqb_spec url ""); [done|]. simpl.
    unfold raise_for_status. by rewrite Hget, Hok.
  - intros url Hurl Hfail. unfold produce_artifact. rewrite Hurl. simpl.
    destruct (negb (url =? "")%string); [|done].
    unfold mbind, M_bind. rewrite download_image_spec.
    unfold download_result, raise_for_status.
    destruct (w_image w url) as [r|x]; [|done].
    by rewrite (Hfail r eq_refl).
Qed.

Lemma X8_download_before_render_witness :
  let w := sample_world (Ret tt) (on_first_site ["A"]) (Ret tt) (Ret tt) in
  let c := {| titulo := "A"; descricao := "d"; link := "l";
              imagem := Some "http://img/a"; fonte := "cuponomia.com" |} in
  produce_artifact w (sample_coupon "A") fresh_bot =
    create_image w "A" fresh_bot ∧
  produce_artifact w c fresh_bot = create_image w "A" fresh_bot.
Proof.
  intros w c. split.
  - apply (X8_download_before_render w (sample_coupon "A") fresh_bot).
    reflexivity.
  - destruct (X8_download_before_render w c fresh_bot) as (_ & _ & _ & H).
    apply (H "http://img/a" eq_refl). intros r Hr. discriminate Hr.
Defined.

(** X9. A cycle sends the caption as plain text only when there is no
    cupom.png on disk, neither before the cycle nor after it: once the file
    exists, every coupon goes out as a photo. *)
Theorem X9_text_only_without_file (cfg : config) (w : world) (st : state)
    (text : string) :
  SendMessage text ∈ added st (post_cupons cfg w st).2 →
  files st !! "cupom.png" = None ∧
  files (post_cupons cfg w st).2 !! "cupom.png" = None.
Proof.
  destruct (post_cupons_cases cfg w st)
    as [(x & _ & ->)|[(_ & _ & ->)|
         (cupons & cupom & rest & st1 & _ & _ & Hs & ->)]]; simpl.
  - rewrite (added_app st st []) by (by rewrite app_nil_r).
    by intros ?%elem_of_nil.
  - rewrite (added_app st st []) by (by rewrite app_nil_r).
    by intros ?%elem_of_nil.
  - destruct (select_new_coupons_state _ _ _ _ Hs) as (Htr & Hf & _).
    pose proof (attempted_effect cfg w cupom st1) as Ht. rewrite Htr in Ht.
    rewrite (added_app _ _ _ Ht). intros Hin%list_elem_of_singleton.
    rewrite attempted_files.
    destruct (succeeded (w_send w)); [|done].
    unfold outgoing in Hin.
    destruct (files (produced w cupom st1) !! "cupom.png") eqn:Hp; [done|].
    split; [|done].
    rewrite produced_files in Hp. rewrite <- Hf.
    destruct (fresh_artifact w cupom); [|done].
    by rewrite lookup_insert_eq in Hp.
Qed.

Lemma X9_text_only_without_file_witness :
  files fresh_bot !! "cupom.png" = None ∧
  files (post_cupons cfg_none world_b_no_image fresh_bot).2 !! "cupom.png" =
    None.
Proof.
  apply (X9_text_only_without_file cfg_none world_b_no_image fresh_bot
           (caption_of cfg_none world_b_no_image (sample_coupon "B"))).
  vm_compute. left.
Defined.

(** ** The reconnect loop, over whole runs *)

Lemma run_script_invariant cfg (P : run_state → Prop) :
  (∀ e rs, P rs → P (step cfg e rs)) →
  ∀ script rs, P rs → P (run_script cfg script rs).
Proof.
  intros Hstep script. induction script as [|e script IH]; intros rs HP.
  - done.
  - rewrite run_script_cons. apply IH. by apply Hstep.
Qed.

Lemma post_cupons_should_restart cfg w st :
  should_restart (post_cupons cfg w st).2 = should_restart st.
Proof.
  destruct (post_cupons_cases cfg w st)
    as [(x & _ & ->)|[(_ & _ & ->)|
         (cupons & cupom & rest & st1 & _ & _ & Hs & ->)]]; simpl;
    [done|done|].
  destruct (select_new_coupons_state _ _ _ _ Hs) as (_ & _ & <-).
  unfold attempted. destruct (produced_state w cupom st1) as (_ & _ & Hp).
  by destruct (w_send w).
Qed.

(** X10. In every state that a run reaches from the start, retry_count is at
    most MAX_RETRIES; it is below MAX_RETRIES as long as the run has not left
    its loops, and it is zero whenever control is in the cycle loop. *)
Theorem X10_retry_count_bounds (cfg : config) (script : list env)
    (disk : gmap string artifact) :
  let rs := run_script cfg script (boot disk) in
  (retry_count rs ≤ MAX_RETRIES)%nat ∧
  (at_line rs ≠ Exited → (retry_count rs < MAX_RETRIES)%nat) ∧
  (at_line rs = AtInnerLoop → retry_count rs = 0).
Proof.
  apply (run_script_invariant cfg (λ rs,
    (retry_count rs ≤ MAX_RETRIES)%nat ∧
    (at_line rs ≠ Exited → (retry_count rs < MAX_RETRIES)%nat) ∧
    (at_line rs = AtInnerLoop → retry_count rs = 0))).
  - intros e rs (Hle & Hlt & Hz).
    destruct (at_line rs) eqn:Hat.
    + destruct (should_restart (bot rs)) eqn:Hsr.
      * destruct (succeeded (e_connect e)) eqn:Hc.
        -- rewrite (step_connect_ok _ _ _ Hat Hsr Hc). simpl.
           unfold MAX_RETRIES. split_and!; [lia|intros _; lia|done].
        -- rewrite (step_connect_fails _ _ _ Hat Hsr Hc). cbv zeta.
           assert (retry_count rs < MAX_RETRIES)%nat as H by (by apply Hlt).
           destruct (MAX_RETRIES <=? S (retry_count rs))%nat eqn:Hmax; simpl.
           ++ split_and!; [lia|done|done].
           ++ apply Nat.leb_gt in Hmax. split_and!; [lia|intros _; lia|done].
      * rewrite (step_flag_down_outer _ _ _ Hat Hsr). simpl.
        split_and!; [done|done|done].
    + rewrite step_inner_retry_count by done.
      specialize (Hz eq_refl). rewrite Hz. unfold MAX_RETRIES.
      split_and!; [lia|intros _; lia|done].
    + assert (step cfg e rs = rs) as -> by (unfold step; by rewrite Hat).
      rewrite Hat. split_and!; [done|done|done].
  - simpl. unfold MAX_RETRIES. split_and!; [lia|intros _; lia|done].
Qed.

(** X11. As long as every connection attempt succeeds and no signal arrives,
    the run never leaves its loops, whatever happens inside the cycles: a
    cycle that raises leads to a reconnection, not to the end of the run. *)
Theorem X11_no_exit_while_connections_succeed (cfg : config)
    (script : list env) (rs : run_state) :
  should_restart (bot rs) = true →
  at_line rs ≠ Exited →
  Forall (λ e, succeeded (e_connect e) = true ∧ quiet e) script →
  should_restart (bot (run_script cfg script rs)) = true ∧
  at_line (run_script cfg script rs) ≠ Exited.
Proof.
  revert rs. induction script as [|e script IH]; intros rs Hsr Hat Hall.
  { done. }
  apply Forall_cons in Hall as [(Hc & Hb & Hw) Hall].
  rewrite run_script_cons. apply IH; [| |done].
  - destruct (at_line rs) eqn:Hl; [| |done].
    + rewrite (step_connect_ok _ _ _ Hl Hsr Hc). simpl. by rewrite Hb.
    + destruct (post_cupons cfg (e_world e) (bot rs)) as [r st1] eqn:Hp.
      rewrite (step_cycle _ _ _ _ _ Hl Hsr Hp). simpl.
      rewrite should_restart_sleep, should_restart_deliver, Hb, Hw.
      pose proof (post_cupons_should_restart cfg (e_world e) (bot rs)) as H.
      rewrite Hp in H. simpl in H. by rewrite H.
  - destruct (at_line rs) eqn:Hl; [| |done].
    + by rewrite (step_connect_ok _ _ _ Hl Hsr Hc).
    + destruct (post_cupons cfg (e_world e) (bot rs)) as [r st1] eqn:Hp.
      rewrite (step_cycle _ _ _ _ _ Hl Hsr Hp). simpl.
      by destruct (succeeded r).
Qed.

Lemma X11_no_exit_while_connections_succeed_witness :
  let rs := run_script cfg_none
              [env_up; env_console_fault; env_up; env_send_fault]
              (boot ∅) in
  should_restart (bot rs) = true ∧ at_line rs ≠ Exited.
Proof.
  apply (X11_no_exit_while_connections_succeed cfg_none
           [env_up; env_console_fault; env_up; env_send_fault] (boot ∅)).
  - reflexivity.
  - intros H. discriminate H.
  - repeat constructor.
Defined.

Lemma step_flag_down_bot cfg e rs :
  should_restart (bot rs) = false →
  bot (step cfg e rs) = bot rs.
Proof.
  intros Hsr. destruct (at_line rs) eqn:Hat.
  - by rewrite step_flag_down_outer.
  - by rewrite step_flag_down_inner.
  - unfold step. by rewrite Hat.
Qed.

(** X12. Once the flag is down at a loop head, nothing more happens, however
    long the script: no send, no wait, no connection, no change of the
    history or the disk; and from the second pass on control is past the
    loops. *)
Theorem X12_flag_down_is_final (cfg : config) (script : list env)
    (rs : run_state) :
  should_restart (bot rs) = false →
  bot (run_script cfg script rs) = bot rs ∧
  ((2 ≤ length script)%nat → at_line (run_script cfg script rs) = Exited).
Proof.
  intros Hsr. split.
  - revert rs Hsr. induction script as [|e script IH]; intros rs Hsr; [done|].
    rewrite run_script_cons, IH; rewrite step_flag_down_bot; done.
  - destruct script as [|e1 [|e2 script]]; simpl; [lia|lia|intros _].
    destruct (flag_down_exits cfg e1 e2 rs Hsr) as [Hex _].
    rewrite !run_script_cons in *. by rewrite exited_absorbs.
Qed.

Lemma X12_flag_down_is_final_witness :
  let rs := step cfg_none env_signal_in_cycle connected_bot in
  bot (run_script cfg_none [env_up; env_up; env_up] rs) = bot rs ∧
  at_line (run_script cfg_none [env_up; env_up; env_up] rs) = Exited.
Proof.
  intros rs.
  destruct (X12_flag_down_is_final cfg_none [env_up; env_up; env_up] rs
              eq_refl) as [H1 H2].
  split; [exact H1|]. apply H2. simpl. lia.
Defined.

Lemma waited_app tr l : waited (tr ++ l) = (waited tr + waited l)%Z.
Proof.
  unfold waited. induction tr as [|e tr IH]; simpl; [done|].
  rewrite IH. lia.
Qed.

Lemma publishes_app tr l : publishes (tr ++ l) = (publishes tr ++ publishes l)%list.
Proof. unfold publishes. apply filter_app. Qed.

(** What a cycle appends: nothing, or one send; a publish only when the
    cycle returns. *)
Lemma post_cupons_trace cfg w st :
  ∃ l,
    trace (post_cupons cfg w st).2 = (trace st ++ l)%list ∧
    waited l = 0%Z ∧
    (publishes l = [] ∨
     ((length (publishes l) = 1)%nat ∧
      succeeded (post_cupons cfg w st).1 = true)).
Proof.
  destruct (post_cupons_cases cfg w st)
    as [(x & _ & ->)|[(_ & _ & ->)|
         (cupons & cupom & rest & st1 & _ & _ & Hs & ->)]]; simpl.
  - exists []. rewrite app_nil_r. split_and!; [done|done|by left].
  - exists []. rewrite app_nil_r. split_and!; [done|done|by left].
  - destruct (select_new_coupons_state _ _ _ _ Hs) as (Htr & _ & _).
    destruct (attempted_trace cfg w cupom st1) as (eff & Ht & Hcap & Hpub).
    exists [eff]. rewrite Ht, Htr. split_and!; [done| |].
    + destruct eff; simpl in *; done.
    + unfold publishes. rewrite filter_cons, filter_nil.
      destruct (decide (is_publish eff = true)); [by right|by left].
Qed.

(** What one pass appends to the trace. *)
Lemma step_trace cfg e rs :
  ∃ l,
    trace (bot (step cfg e rs)) = (trace (bot rs) ++ l)%list ∧
    (POST_INTERVAL * Z.of_nat (length (publishes l)) ≤ waited l)%Z ∧
    (at_line rs ≠ AtInnerLoop → publishes l = []) ∧
    (at_line (step cfg e rs) = AtInnerLoop →
     at_line rs = AtInnerLoop ∨ Connected ∈ l).
Proof.
  destruct (should_restart (bot rs)) eqn:Hsr.
  2:{ exists []. rewrite step_flag_down_bot, app_nil_r by done.
      split_and!; [done|done|done|].
      destruct (at_line rs) eqn:Hat.
      - by rewrite step_flag_down_outer.
      - by rewrite step_flag_down_inner.
      - unfold step. rewrite Hat. by rewrite Hat. }
  destruct (at_line rs) eqn:Hat.
  - destruct (succeeded (e_connect e)) eqn:Hc.
    + rewrite (step_connect_ok _ _ _ Hat Hsr Hc). simpl.
      rewrite trace_deliver. simpl. rewrite <- app_assoc.
      eexists. split; [done|].
      destruct (e_signal_busy e); simpl;
        (split_and!; [done|done|intros _; right; left]).
    + rewrite (step_connect_fails _ _ _ Hat Hsr Hc). cbv zeta.
      destruct (MAX_RETRIES <=? S (retry_count rs))%nat; simpl.
      * rewrite trace_deliver. simpl. rewrite <- app_assoc.
        eexists. split; [done|].
        destruct (e_signal_busy e); simpl; (split_and!; done).
      * rewrite trace_sleep, trace_deliver. simpl. rewrite <- !app_assoc.
        eexists. split; [done|].
        destruct (e_signal_busy e), (e_signal_wait e); simpl;
          (split_and!; done).
  - destruct (post_cupons cfg (e_world e) (bot rs)) as [r st1] eqn:Hp.
    rewrite (step_cycle _ _ _ _ _ Hat Hsr Hp). simpl.
    destruct (post_cupons_trace cfg (e_world e) (bot rs))
      as (l & Ht & Hw & Hpub).
    rewrite Hp in Ht, Hpub. simpl in Ht, Hpub.
    rewrite trace_sleep, trace_deliver, Ht, <- !app_assoc.
    eexists. split; [done|].
    rewrite !publishes_app, !waited_app, !length_app, Hw.
    split_and!; [|done|by left].
    destruct Hpub as [->|[-> ->]];
      destruct (e_signal_busy e), (e_signal_wait e), (succeeded r); simpl;
      done.
  - exists []. assert (step cfg e rs = rs) as -> by (unfold step; by rewrite Hat).
    rewrite app_nil_r, Hat. split_and!; done.
Qed.




(** X15. Over any stretch of a run, the seconds spent in asyncio.sleep are at
    least POST_INTERVAL times the number of coupons sent in that stretch:
    every coupon that goes out is followed by the whole inter-cycle wait
    before the next cycle can start. *)
Theorem X15_one_interval_per_publish (cfg : config) (script : list env)
    (rs : run_state) :
  let rs' := run_script cfg script rs in
  (POST_INTERVAL *
     (Z.of_nat (length (publishes (trace (bot rs')))) -
      Z.of_nat (length (publishes (trace (bot rs)))))
   ≤ waited (trace (bot rs')) - waited (trace (bot rs)))%Z.
Proof.
  apply (run_script_invariant cfg (λ rs',
    (POST_INTERVAL *
       (Z.of_nat (length (publishes (trace (bot rs')))) -
        Z.of_nat (length (publishes (trace (bot rs)))))
     ≤ waited (trace (bot rs')) - waited (trace (bot rs)))%Z)).
  - intros e rs' IH.
    destruct (step_trace cfg e rs') as (l & -> & Hl & _).
    rewrite publishes_app, waited_app, length_app. lia.
  - lia.
Qed.

Lemma post_cupons_files cfg w st path :
  (path ≠ "cupom.png" →
   files (post_cupons cfg w st).2 !! path = files st !! path) ∧
  (is_Some (files st !! "cupom.png") →
   is_Some (files (post_cupons cfg w st).2 !! "cupom.png")).
Proof.
  destruct (post_cupons_cases cfg w st)
    as [(x & _ & ->)|[(_ & _ & ->)|
         (cupons & cupom & rest & st1 & _ & _ & Hs & ->)]]; simpl;
    [done|done|].
  destruct (select_new_coupons_state _ _ _ _ Hs) as (_ & Hf & _).
  rewrite attempted_files, produced_files, Hf.
  destruct (fresh_artifact w cupom); [|done]. split.
  - intros Hne. by rewrite lookup_insert_ne.
  - intros _. rewrite lookup_insert_eq. by eexists.
Qed.

Lemma files_deliver signal st : files (deliver signal st) = files st.
Proof. by destruct signal. Qed.

Lemma files_sleep seconds signal st :
  files (sleep seconds signal st) = files st.
Proof. unfold sleep. by rewrite files_deliver. Qed.

(** The disk after one pass: untouched, or as the cycle left it. *)
Lemma step_files cfg e rs :
  files (bot (step cfg e rs)) = files (bot rs) ∨
  files (bot (step cfg e rs)) =
    files (post_cupons cfg (e_world e) (bot rs)).2.
Proof.
  destruct (should_restart (bot rs)) eqn:Hsr.
  2:{ left. by rewrite step_flag_down_bot. }
  destruct (at_line rs) eqn:Hat.
  - left. destruct (succeeded (e_connect e)) eqn:Hc.
    + rewrite (step_connect_ok _ _ _ Hat Hsr Hc). simpl.
      by rewrite files_deliver.
    + rewrite (step_connect_fails _ _ _ Hat Hsr Hc). cbv zeta.
      destruct (MAX_RETRIES <=? S (retry_count rs))%nat; simpl.
      * by rewrite files_deliver.
      * by rewrite files_sleep, files_deliver.
  - right. destruct (post_cupons cfg (e_world e) (bot rs)) as [r st1] eqn:Hp.
    rewrite (step_cycle _ _ _ _ _ Hat Hsr Hp). simpl.
    by rewrite files_sleep, files_deliver.
  - left. unfold step. by rewrite Hat.
Qed.

(** X14. Over a whole run, whatever the script, the bot writes no file but
    cupom.png: every other path of the disk keeps its content (or its
    absence); and it never removes cupom.png: once the file is there it is
    there in every later state of the run. *)
Theorem X14_run_touches_only_the_slot (cfg : config) (script : list env)
    (rs : run_state) :
  let rs' := run_script cfg script rs in
  (∀ path, path ≠ "cupom.png" →
           files (bot rs') !! path = files (bot rs) !! path) ∧
  (is_Some (files (bot rs) !! "cupom.png") →
   is_Some (files (bot rs') !! "cupom.png")).
Proof.
  apply (run_script_invariant cfg (λ rs',
    (∀ path, path ≠ "cupom.png" →
             files (bot rs') !! path = files (bot rs) !! path) ∧
    (is_Some (files (bot rs) !! "cupom.png") →
     is_Some (files (bot rs') !! "cupom.png")))).
  - intros e rs' [Hother Hslot].
    destruct (step_files cfg e rs') as [Hf|Hf]; rewrite Hf; [done|]. split.
    + intros path Hne.
      destruct (post_cupons_files cfg (e_world e) (bot rs') path) as [-> _];
        auto.
    + intros Hsome.
      destruct (post_cupons_files cfg (e_world e) (bot rs') "cupom.png")
        as [_ H].
      auto.
  - done.
Qed.

Lemma posted_deliver signal st :
  posted_coupons (deliver signal st) = posted_coupons st.
Proof. by destruct signal. Qed.

Lemma posted_sleep seconds signal st :
  posted_coupons (sleep seconds signal st) = posted_coupons st.
Proof. unfold sleep. by rewrite posted_deliver. Qed.

(** A cycle whose send succeeds, on a batch that still has an unposted
    title, posts one of the unposted titles. *)
Lemma cycle_posts_new_title cfg w st (T : gset string) :
  w_console w = Ret tt →
  w_send w = Ret tt →
  batch_titles w = T →
  posted_coupons st ⊆ T →
  (size (posted_coupons st) < size T)%nat →
  ∃ t eff,
    t ∈ T ∧ (t ∉ posted_coupons st) ∧
    posted_coupons (post_cupons cfg w st).2 = {[t]} ∪ posted_coupons st ∧
    (post_cupons cfg w st).1 = Ret tt ∧
    trace (post_cupons cfg w st).2 = (trace st ++ [eff])%list ∧
    is_publish eff = true.
Proof.
  intros Hc Hok HT Hsub Hlt.
  destruct (get_cupons_total w) as [cupons Hg].
  unfold batch_titles in HT. rewrite Hg in HT.
  assert (∀ c, c ∈ cupons → titulo c ∈ T) as Hin.
  { intros c Hcin. rewrite <- HT. apply elem_of_list_to_set.
    apply list_elem_of_In, in_map. by apply list_elem_of_In. }
  assert (Exists (is_new st) cupons) as Hex.
  { assert (0 < size (T ∖ posted_coupons st))%nat as Hpos
      by (rewrite size_difference by done; lia).
    apply size_pos_elem_of in Hpos as [x Hx].
    apply elem_of_difference in Hx as [HxT Hxnew].
    rewrite <- HT in HxT. apply elem_of_list_to_set in HxT.
    apply list_elem_of_In, in_map_iff in HxT as (c & <- & Hcin).
    apply Exists_exists. exists c. split; [by apply list_elem_of_In|done]. }
  destruct (filter_is_new_cons _ _ Hex) as (cupom & rest & Hf).
  assert (select_new_coupons cupons st = (Ret (cupom :: rest), st)) as Hs
    by (rewrite select_new_coupons_eq, Hf; reflexivity).
  assert (cupom ∈ filter (is_new st) cupons) as Hcupom by (rewrite Hf; left).
  apply list_elem_of_filter in Hcupom as [Hnew Hmem].
  destruct (attempted_trace cfg w cupom st) as (eff & Ht & _ & Hpub).
  exists (titulo cupom), eff.
  rewrite (post_cupons_spec _ _ _ _ _ _ _ Hc Hg Hs). simpl.
  rewrite attempted_posted, Hok in *. simpl in *.
  split_and!; auto.
Qed.

(** X16. While the searches keep returning the same set of titles T, in any
    order, and every send succeeds, the cycles work through T without
    repeating: each of the next cycles publishes exactly one coupon and adds
    one title of T that was not in the history, as long as T has unposted
    titles. After as many cycles as there were unposted titles, the history
    is exactly T. *)
Theorem X16_round_robin (cfg : config) (script : list env) (T : gset string) :
  ∀ rs : run_state,
  at_line rs = AtInnerLoop →
  should_restart (bot rs) = true →
  Forall (λ e, quiet e ∧ w_console (e_world e) = Ret tt ∧
               w_send (e_world e) = Ret tt ∧ batch_titles (e_world e) = T)
    script →
  posted_coupons (bot rs) ⊆ T →
  (size (posted_coupons (bot rs)) + length script ≤ size T)%nat →
  let rs' := run_script cfg script rs in
  posted_coupons (bot rs) ⊆ posted_coupons (bot rs') ∧
  posted_coupons (bot rs') ⊆ T ∧
  size (posted_coupons (bot rs')) =
    (size (posted_coupons (bot rs)) + length script)%nat ∧
  length (publishes (trace (bot rs'))) =
    (length (publishes (trace (bot rs))) + length script)%nat ∧
  ((size (posted_coupons (bot rs)) + length script = size T)%nat →
   posted_coupons (bot rs') = T).
Proof.
  assert (∀ rs : run_state,
    at_line rs = AtInnerLoop →
    should_restart (bot rs) = true →
    Forall (λ e, quiet e ∧ w_console (e_world e) = Ret tt ∧
                 w_send (e_world e) = Ret tt ∧ batch_titles (e_world e) = T)
      script →
    posted_coupons (bot rs) ⊆ T →
    (size (posted_coupons (bot rs)) + length script ≤ size T)%nat →
    posted_coupons (bot rs) ⊆ posted_coupons (bot (run_script cfg script rs)) ∧
    posted_coupons (bot (run_script cfg script rs)) ⊆ T ∧
    size (posted_coupons (bot (run_script cfg script rs))) =
      (size (posted_coupons (bot rs)) + length script)%nat ∧
    length (publishes (trace (bot (run_script cfg script rs)))) =
      (length (publishes (trace (bot rs))) + length script)%nat) as Hmain.
  { induction script as [|e script IH]; intros rs Hat Hsr Hall Hsub Hsize.
    { simpl. split_and!; [done|done|lia|lia]. }
    apply Forall_cons in Hall as [([Hb Hw] & Hc & Hok & HT) Hall].
    simpl in Hsize. rewrite run_script_cons.
    destruct (cycle_posts_new_title cfg (e_world e) (bot rs) T Hc Hok HT Hsub)
      as (t & eff & HtT & Htnew & Hposted & Hret & Htrace & Hpub); [lia|].
    destruct (post_cupons cfg (e_world e) (bot rs)) as [r st1] eqn:Hp.
    simpl in Hposted, Hret, Htrace. subst r.
    pose proof (post_cupons_should_restart cfg (e_world e) (bot rs)) as Hflag.
    rewrite Hp in Hflag. simpl in Hflag.
    pose proof (step_cycle _ _ _ _ _ Hat Hsr Hp) as Hstep.
    simpl in Hstep. rewrite Hb, Hw in Hstep.
    assert (size (posted_coupons st1) = S (size (posted_coupons (bot rs))))
      as Hsz.
    { rewrite Hposted, size_union, size_singleton; [done|].
      by apply disjoint_singleton_l. }
    rewrite Hstep.
    set (rs1 := {| bot := sleep POST_INTERVAL false (deliver false st1);
                   retry_count := retry_count rs; at_line := AtInnerLoop |}).
    assert (posted_coupons (bot rs1) = posted_coupons st1) as Hp1 by done.
    assert (trace (bot rs1) = (trace st1 ++ [Sleep POST_INTERVAL])%list)
      as Ht1 by done.
    assert (should_restart (bot rs1) = true) as Hsr1
      by (simpl; by rewrite Hflag).
    assert (length (publishes [eff]) = 1%nat) as Hone.
    { unfold publishes. rewrite filter_cons, filter_nil.
      by rewrite decide_True. }
    destruct (IH rs1) as (I0 & I1 & I2 & I3).
    - done.
    - done.
    - done.
    - rewrite Hp1, Hposted.
      apply union_subseteq. split; [by apply singleton_subseteq_l|done].
    - rewrite Hp1, Hsz. lia.
    - rewrite Hp1 in I0, I2. rewrite Hsz in I2.
      rewrite Ht1, Htrace, !publishes_app, !length_app, Hone in I3.
      simpl in I3. split_and!; [|done|simpl; lia|simpl; lia].
      etrans; [|exact I0]. rewrite Hposted. apply union_subseteq_r. }
  intros rs Hat Hsr Hall Hsub Hsize rs'. subst rs'.
  destruct (Hmain rs Hat Hsr Hall Hsub Hsize) as (H0 & H1 & H2 & H3).
  split_and!; [done|done|done|done|].
  intros Hfull. apply set_subseteq_size_eq; [done|lia].
Qed.

Lemma X16_round_robin_witness :
  let e1 := sample_env (Ret tt)
              (sample_world (Ret tt) (on_first_site ["A"; "B"]) (Ret tt) (Ret tt))
              false false in
  let e2 := sample_env (Ret tt)
              (sample_world (Ret tt) (on_first_site ["B"; "A"]) (Ret tt) (Ret tt))
              false false in
  posted_coupons (bot (run_script cfg_none [e1; e2] connected_bot)) =
    {[ "A"; "B" ]} ∧
  length (publishes (trace (bot (run_script cfg_none [e1; e2] connected_bot))))
    = 2%nat.
Proof.
  intros e1 e2.
  destruct (X16_round_robin cfg_none [e1; e2] {[ "A"; "B" ]} connected_bot)
    as (_ & _ & _ & Hpub & Hall).
  - reflexivity.
  - reflexivity.
  - repeat constructor.
  - apply empty_subseteq.
  - vm_compute. lia.
  - split; [|exact Hpub]. apply Hall. vm_compute. reflexivity.
Defined.
